(** * Athlete Pension: the questionnaire wizard and the retirement projection

  The development has these parts.

  - [Wizard] embeds [QuestionnaireWizard]
    (frontend/src/components/QuestionnaireWizard.tsx): the five-step form,
    its per-step validation, its navigation handlers and the request its
    submit handler posts.
  - [Advisor] embeds the two labels of [AIAdvisor.tsx] that depend on the
    sign of the wealth gap and on the on-track flag.
  - [Engine] is the retirement projection of the backend
    (backend/app/services/financial_calculator.py).  That file is not part
    of the sources at hand, so the engine is modelled from its
    specification.
  - [WizardView], [AdvisorPanel], [SmartPlanning], [ReportModal] and
    [ReportMounts] embed what else the components compute: the header and
    the summary of the wizard, the scripted messages and the typing
    animation of the advisor, the page that holds the analysis, and the
    e-mail and PDF buttons of the report, within one mount and across
    mounts. *)

From Stdlib Require Import ZArith QArith Qpower Qabs Lqa Lia Ascii String List.
From stdpp Require Import base gmap strings.
Import ListNotations.

Open Scope Z_scope.

(** ** JavaScript values of the form fields

  Every field of the questionnaire is a [number | null].  The two ages are
  written only by [parseInt(e.target.value) || null] and the three amounts
  only by [parseFloat(e.target.value) || null]; a parsed integer is a [Z],
  a parsed decimal a [Q], and [null] is [None].  Comparisons of finite
  doubles agree with the comparisons of the numbers they denote, and the
  wizard does no arithmetic on the fields. *)

Module Js.

(** [ToNumber(null)] is [+0]. *)
Definition toNumberZ (x : option Z) : Z := default 0 x.
Definition toNumberQ (x : option Q) : Q := default 0%Q x.

(** [!x] holds of [null] and of [0]. *)
Definition notZ (x : option Z) : bool := toNumberZ x =? 0.
Definition notQ (x : option Q) : bool := Qeq_bool (toNumberQ x) 0.

(** [x < y] on decimals. *)
Definition Qltb (x y : Q) : bool := negb (Qle_bool y x).

(** [x || d] where [d] is a number: [x] when truthy, else [d]. *)
Definition orZ (x : option Z) (d : Z) : Z :=
  if notZ x then d else toNumberZ x.
Definition orQ (x : option Q) (d : Q) : Q :=
  if notQ x then d else toNumberQ x.

(** [x || null], the value every change handler stores. *)
Definition orNullZ (x : option Z) : option Z :=
  if notZ x then None else x.
Definition orNullQ (x : option Q) : option Q :=
  if notQ x then None else x.

End Js.

(** ** The questionnaire wizard *)

Module Wizard.
Import Js.

Record QuestionnaireData := mkData {
  age : option Z;
  currentIncome : option Q;
  currentWealth : option Q;
  retirementAge : option Z;
  monthlyPayoutRequired : option Q
}.

(** [id], [title] and [icon] of the five steps. *)
Definition steps : list (string * string * string) :=
  [ ("age", "Your Age", "🎂"); ("income", "Current Income", "💵");
    ("wealth", "Current Wealth", "💰"); ("retirement", "Retirement Plans", "🏖️");
    ("payout", "Monthly Needs", "📊") ].

(** [steps.length - 1] *)
Definition lastStep : Z := Z.of_nat (length steps) - 1.

Definition ageError : string := "Please enter a valid age between 18 and 100".
Definition incomeError : string := "Please enter a valid income".
Definition wealthError : string := "Please enter a valid amount (can be 0)".
Definition retirementError : string :=
  "Retirement age must be greater than current age".
Definition payoutError : string := "Please enter required monthly amount".

(** The [newErrors] object that [validateStep] builds. *)
Definition newErrors (step : Z) (data : QuestionnaireData) : gmap string string :=
  match step with
  | 0 =>
      if notZ (age data) || (toNumberZ (age data) <? 18)
         || (toNumberZ (age data) >? 100)
      then <["age" := ageError]> ∅ else ∅
  | 1 =>
      if notQ (currentIncome data) || Qltb (toNumberQ (currentIncome data)) 0
      then <["currentIncome" := incomeError]> ∅ else ∅
  | 2 =>
      if match currentWealth data with None => true | Some _ => false end
         || Qltb (toNumberQ (currentWealth data)) 0
      then <["currentWealth" := wealthError]> ∅ else ∅
  | 3 =>
      if notZ (retirementAge data)
         || (toNumberZ (retirementAge data) <=? orZ (age data) 0)
      then <["retirementAge" := retirementError]> ∅ else ∅
  | 4 =>
      if notQ (monthlyPayoutRequired data)
         || Qltb (toNumberQ (monthlyPayoutRequired data)) 0
      then <["monthlyPayoutRequired" := payoutError]> ∅ else ∅
  | _ => ∅
  end.

(** [validateStep] stores [newErrors] with [setErrors] and returns
    [Object.keys(newErrors).length === 0]: the result is the stored error
    object and the returned flag. *)
Definition validateStep (step : Z) (data : QuestionnaireData)
  : gmap string string * bool :=
  let e := newErrors step data in (e, (size e =? 0)%nat).

(** The JSON body of [POST /api/v1/financial/analyze]. *)
Record AnalyzeBody := mkBody {
  body_age : option Z;
  body_retirement_age : option Z;
  body_current_wealth : Q;
  body_current_income : option Q;
  body_monthly_payout_required : option Q
}.

Definition requestBody (data : QuestionnaireData) : AnalyzeBody :=
  {| body_age := age data;
     body_retirement_age := retirementAge data;
     body_current_wealth := orQ (currentWealth data) 0;
     body_current_income := currentIncome data;
     body_monthly_payout_required := monthlyPayoutRequired data |}.

(** What the component reads and writes: the [data] and [currentStep] props
    (state of the parent page, written through [onDataUpdate] and
    [onStepChange]), its own [errors] state, and the requests it has
    posted. *)
Record State := mkState {
  data : QuestionnaireData;
  currentStep : Z;
  errors : gmap string string;
  sent : list AnalyzeBody
}.

Definition setErrors (e : gmap string string) (w : State) : State :=
  {| data := data w; currentStep := currentStep w; errors := e; sent := sent w |}.
Definition onStepChange (s : Z) (w : State) : State :=
  {| data := data w; currentStep := s; errors := errors w; sent := sent w |}.
Definition onDataUpdate (d : QuestionnaireData) (w : State) : State :=
  {| data := d; currentStep := currentStep w; errors := errors w; sent := sent w |}.
Definition fetchAnalyze (b : AnalyzeBody) (w : State) : State :=
  {| data := data w; currentStep := currentStep w; errors := errors w;
     sent := sent w ++ [b] |}.

Definition handleNext (w : State) : State :=
  let '(e, ok) := validateStep (currentStep w) (data w) in
  let w := setErrors e w in
  if ok then
    if currentStep w <? lastStep then onStepChange (currentStep w + 1) w else w
  else w.

Definition handlePrevious (w : State) : State :=
  if currentStep w >? 0
  then setErrors ∅ (onStepChange (currentStep w - 1) w)
  else w.

(** [handleSubmit] up to the [fetch] call.  What follows the response
    (storing [result.analysis] in the parent and opening the report) does
    not touch the four components of [State]. *)
Definition handleSubmit (w : State) : State :=
  let '(e, ok) := validateStep (currentStep w) (data w) in
  let w := setErrors e w in
  if ok then fetchAnalyze (requestBody (data w)) w else w.

Definition handleKeyPress (key : string) (w : State) : State :=
  if String.eqb key "Enter" then
    if currentStep w <? lastStep then handleNext w else handleSubmit w
  else w.

(** The [onChange] handlers; the argument is the result of [parseInt] or
    [parseFloat], [None] standing for [NaN]. *)
Definition changeAge (p : option Z) (d : QuestionnaireData) :=
  {| age := orNullZ p; currentIncome := currentIncome d;
     currentWealth := currentWealth d; retirementAge := retirementAge d;
     monthlyPayoutRequired := monthlyPayoutRequired d |}.
Definition changeIncome (p : option Q) (d : QuestionnaireData) :=
  {| age := age d; currentIncome := orNullQ p;
     currentWealth := currentWealth d; retirementAge := retirementAge d;
     monthlyPayoutRequired := monthlyPayoutRequired d |}.
Definition changeWealth (p : option Q) (d : QuestionnaireData) :=
  {| age := age d; currentIncome := currentIncome d;
     currentWealth := orNullQ p; retirementAge := retirementAge d;
     monthlyPayoutRequired := monthlyPayoutRequired d |}.
Definition changeRetirementAge (p : option Z) (d : QuestionnaireData) :=
  {| age := age d; currentIncome := currentIncome d;
     currentWealth := currentWealth d; retirementAge := orNullZ p;
     monthlyPayoutRequired := monthlyPayoutRequired d |}.
Definition changePayout (p : option Q) (d : QuestionnaireData) :=
  {| age := age d; currentIncome := currentIncome d;
     currentWealth := currentWealth d; retirementAge := retirementAge d;
     monthlyPayoutRequired := orNullQ p |}.

Inductive event :=
| ChangeAge (parsed : option Z)
| ChangeIncome (parsed : option Q)
| ChangeWealth (parsed : option Q)
| ChangeRetirementAge (parsed : option Z)
| ChangePayout (parsed : option Q)
| ClickNext
| ClickPrevious
| ClickSubmit
| KeyPress (key : string).

Definition step (w : State) (e : event) : State :=
  match e with
  | ChangeAge p => onDataUpdate (changeAge p (data w)) w
  | ChangeIncome p => onDataUpdate (changeIncome p (data w)) w
  | ChangeWealth p => onDataUpdate (changeWealth p (data w)) w
  | ChangeRetirementAge p => onDataUpdate (changeRetirementAge p (data w)) w
  | ChangePayout p => onDataUpdate (changePayout p (data w)) w
  | ClickNext => handleNext w
  | ClickPrevious => handlePrevious w
  | ClickSubmit => handleSubmit w
  | KeyPress k => handleKeyPress k w
  end.

Definition run (evs : list event) (w : State) : State := fold_left step evs w.

(** What the rendered page lets happen: each input exists only at its own
    step, the next button only before the last step, the submit button only
    from the last step on, and the previous button is disabled at step 0.
    The key handler sits on whichever input is shown. *)
Definition enabled (w : State) (e : event) : bool :=
  match e with
  | ChangeAge _ => currentStep w =? 0
  | ChangeIncome _ => currentStep w =? 1
  | ChangeWealth _ => currentStep w =? 2
  | ChangeRetirementAge _ => currentStep w =? 3
  | ChangePayout _ => currentStep w =? 4
  | ClickNext => currentStep w <? lastStep
  | ClickPrevious => negb (currentStep w =? 0)
  | ClickSubmit => negb (currentStep w <? lastStep)
  | KeyPress _ => true
  end.

(** The page starts with every field [null] at step 0. *)
Definition initialData : QuestionnaireData :=
  {| age := None; currentIncome := None; currentWealth := None;
     retirementAge := None; monthlyPayoutRequired := None |}.
Definition initial : State :=
  {| data := initialData; currentStep := 0; errors := ∅; sent := [] |}.

(** The states of the page: the initial one and what enabled events make
    of it. *)
Inductive reachable : State -> Prop :=
| reachable_initial : reachable initial
| reachable_step w e :
    reachable w -> enabled w e = true -> reachable (step w e).

(** A posted body whose ages are in order. *)
Definition agesInOrder (b : AnalyzeBody) : Prop :=
  exists a r, body_age b = Some a /\ body_retirement_age b = Some r /\ a < r.

(** The steps before the current one accept the data as it is now. *)
Definition earlierStepsPass (w : State) : Prop :=
  (0 < currentStep w -> snd (validateStep 0 (data w)) = true) /\
  (1 < currentStep w -> snd (validateStep 1 (data w)) = true) /\
  (2 < currentStep w -> snd (validateStep 2 (data w)) = true) /\
  (3 < currentStep w -> snd (validateStep 3 (data w)) = true).

Definition invariant (w : State) : Prop :=
  0 <= currentStep w <= 4 /\ earlierStepsPass w /\ Forall agesInOrder (sent w).

(** A session that types 0 into the wealth input and asks for the next
    step. *)
Definition startFromScratch : list event :=
  [ ChangeAge (Some 30); ClickNext;
    ChangeIncome (Some 150000%Q); ClickNext;
    ChangeWealth (Some 0%Q); ClickNext ].

(** A session that enters a retirement age of 150 and submits. *)
Definition lateRetirement : list event :=
  [ ChangeAge (Some 30); ClickNext;
    ChangeIncome (Some 150000%Q); ClickNext;
    ChangeWealth (Some 50000%Q); ClickNext;
    ChangeRetirementAge (Some 150); ClickNext;
    ChangePayout (Some 5000%Q); ClickSubmit ].

(** The questionnaire of the rejected scenario: age 45, retirement at 40. *)
Definition retireBeforeAge : QuestionnaireData :=
  {| age := Some 45; currentIncome := Some 150000%Q;
     currentWealth := Some 0%Q; retirementAge := Some 40;
     monthlyPayoutRequired := Some 4000%Q |}.

(** The component at its last step with nothing but the payout filled in. *)
Definition onlyPayout : State :=
  {| data := {| age := None; currentIncome := None; currentWealth := None;
                retirementAge := None;
                monthlyPayoutRequired := Some 5000%Q |};
     currentStep := 4; errors := ∅; sent := [] |}.

End Wizard.

(** ** The advisor panel

    [AIAdvisor] receives the analysis of the backend and derives two labels
    from it: the caption of the gap tile from the sign of
    [projections.wealth_gap], and the status badge from
    [status.is_on_track]. *)

Module Advisor.

Definition gapCaption (wealth_gap : Q) : string :=
  if Js.Qltb 0 wealth_gap then "Wealth Gap" else "Surplus".

Definition statusBadge (is_on_track : bool) : string :=
  if is_on_track then "✅ On Track!" else "⚠️ Needs Attention".

End Advisor.

(** ** The projection engine

    The calculator and its endpoint are not among the sources; only their
    documentation and their callers are.  The definitions of this module
    follow the specification of the engine step by step. *)

Module Engine.

(** Modelled from the spec: the inputs of one request (the request model of
    the backend is missing): two integer ages and three decimal amounts. *)
Record AthleteFinancialInputs := mkInputs {
  currentAge : Z;
  retirementAge : Z;
  currentWealth : Q;
  currentIncome : Q;
  monthlyPayoutRequired : Q
}.

(** Modelled from the spec: the rates of the assumption set (the
    assumption model of the backend is missing). *)
Record AssumptionSet := mkAssumptions {
  withdrawalRate : Q;
  growthRatePreRetirement : Q;
  growthRatePostRetirement : Q;
  inflationRate : Q;
  taxRate : Q
}.

(** Modelled from the spec: the documented defaults 4% / 5% / 3% / 3% and
    a tax rate of 0 (the assumption model of the backend is missing). *)
Definition defaultAssumptions : AssumptionSet :=
  {| withdrawalRate := 4 # 100;
     growthRatePreRetirement := 5 # 100;
     growthRatePostRetirement := 3 # 100;
     inflationRate := 3 # 100;
     taxRate := 0 |}.

(** Modelled from the spec: the optional rates of a request, which is
    missing with the endpoint. *)
Record AssumptionOverrides := mkOverrides {
  withdrawal_rate : option Q;
  growth_rate_pre_retirement : option Q;
  growth_rate_post_retirement : option Q;
  inflation_rate : option Q
}.

(** Modelled from the spec: [resolve] of the assumption set, which is
    missing; caller fields go over the defaults and are taken as they are. *)
Definition resolve (o : AssumptionOverrides) : AssumptionSet :=
  {| withdrawalRate := default (withdrawalRate defaultAssumptions) (withdrawal_rate o);
     growthRatePreRetirement :=
       default (growthRatePreRetirement defaultAssumptions) (growth_rate_pre_retirement o);
     growthRatePostRetirement :=
       default (growthRatePostRetirement defaultAssumptions) (growth_rate_post_retirement o);
     inflationRate := default (inflationRate defaultAssumptions) (inflation_rate o);
     taxRate := taxRate defaultAssumptions |}.

(** Modelled from the spec: the result of the missing calculator, in the
    part that the specification determines.  [estimatedYearsMoneyLasts],
    [feasibilityScore], [urgencyLevel] and [recommendations] are described
    by example only and are left out. *)
Record ProjectionResult := mkResult {
  yearsToRetirement : Z;
  annualPayoutRequired : Q;
  requiredCorpus : Q;
  projectedWealthAtRetirement : Q;
  wealthGap : Q;
  requiredMonthlySavings : Q;
  savingsRatePercentage : Q;
  isOnTrack : bool
}.

(** Modelled from the spec: the validation error of the missing
    calculator, which lists the offending fields. *)
Inductive error :=
| ValidationError (offending : list string).

(** Modelled from the spec: the input constraints of the request boundary
    (the endpoint is missing). *)
Definition validInputs (i : AthleteFinancialInputs) : Prop :=
  18 <= currentAge i <= 100 /\
  18 <= retirementAge i <= 100 /\
  currentAge i < retirementAge i /\
  (0 <= currentWealth i)%Q /\
  (0 < currentIncome i)%Q /\
  (0 < monthlyPayoutRequired i)%Q.

Definition negative (x : Q) : bool := negb (Qle_bool 0 x).

(** Modelled from the spec: the check of the input shape in the missing
    calculator; the fields of negative value are reported, not computed
    with. *)
Definition negativeFields (i : AthleteFinancialInputs) : list string :=
  (if negative (currentWealth i) then ["currentWealth"] else []) ++
  (if negative (currentIncome i) then ["currentIncome"] else []) ++
  (if negative (monthlyPayoutRequired i) then ["monthlyPayoutRequired"] else []).

(** Modelled from the spec: the bracket of the annuity equation of step 6
    (the calculator is missing), [((1+r)^n - 1) / r], which is [n] when [r]
    is 0. *)
Definition annuityFactor (r : Q) (n : Z) : Q :=
  if Qeq_bool r 0 then inject_Z n else (((1 + r) ^ n - 1) / r)%Q.

Section MonthlyRate.

(** The specification names the rate [r] of the annuity only as the
    monthly equivalent of the yearly growth rate; the conversion is a
    parameter of the engine. *)
Variable monthlyEquivalent : Q -> Q.

(** Modelled from the spec: step 6 of the engine (the calculator is
    missing), the monthly payment [PMT] with
    [PMT * (((1+r)^n - 1) / r) = wealthGap] over [n = years * 12] months,
    [wealthGap / n] when [r] is 0, and no payment when there is no gap. *)
Definition monthlySavings (gap growth : Q) (years : Z) : Q :=
  if Qle_bool gap 0 then 0%Q
  else (gap / annuityFactor (monthlyEquivalent growth) (years * 12))%Q.

(** Modelled from the spec: [computeProjection] of the missing calculator,
    steps 1 to 7 of the engine in their order, after the check of the input
    shape. *)
Definition computeProjection (i : AthleteFinancialInputs) (a : AssumptionSet)
  : error + ProjectionResult :=
  match negativeFields i with
  | _ :: _ as fields => inl (ValidationError fields)
  | [] =>
    let years := retirementAge i - currentAge i in
    if years <=? 0 then inl (ValidationError ["retirementAge"])
    else
      let annual := (monthlyPayoutRequired i * 12)%Q in
      if Qeq_bool (withdrawalRate a) 0 then inl (ValidationError ["withdrawalRate"])
      else
        let corpus := (annual / withdrawalRate a)%Q in
        let projected :=
          (currentWealth i * (1 + growthRatePreRetirement a) ^ years)%Q in
        let gap := (corpus - projected)%Q in
        let savings := monthlySavings gap (growthRatePreRetirement a) years in
        inr {| yearsToRetirement := years;
               annualPayoutRequired := annual;
               requiredCorpus := corpus;
               projectedWealthAtRetirement := projected;
               wealthGap := gap;
               requiredMonthlySavings := savings;
               savingsRatePercentage := (savings * 12 / currentIncome i * 100)%Q;
               isOnTrack := Qle_bool gap 0 |}
  end.

End MonthlyRate.

(** One conversion to run the engine with: the nominal monthly rate. *)
Definition nominalMonthly (growth : Q) : Q := (growth / 12)%Q.

(** The inputs of the worked scenario A. *)
Definition scenarioA : AthleteFinancialInputs :=
  {| currentAge := 25; retirementAge := 40; currentWealth := 100000;
     currentIncome := 200000; monthlyPayoutRequired := 5000 |}.




End Engine.

(** ** What the wizard renders

    The parts of the markup of [QuestionnaireWizard] that compute: the
    header of the current step and the summary of the last step. *)

Module WizardView.
Import Js Wizard.

(** [steps[currentStep]]: the entry at an index inside the array, and
    [undefined] at any other. *)
Definition stepAt (s : Z) : option (string * string * string) :=
  if s <? 0 then None else steps !! Z.to_nat s.

(** The header shows [steps[currentStep].icon], [steps[currentStep].title]
    and "Step {currentStep + 1} of {steps.length}".  Reading a property of
    [undefined] throws; that is [None]. *)
Record Header := mkHeader {
  h_icon : string;
  h_title : string;
  h_number : Z;
  h_total : Z
}.

Definition header (s : Z) : option Header :=
  match stepAt s with
  | Some (_, title, icon) =>
      Some {| h_icon := icon; h_title := title; h_number := s + 1;
              h_total := Z.of_nat (length steps) |}
  | None => None
  end.

(** What React shows for [x && ... && <element>]: nothing when the first
    falsy operand is [null], the text 0 when it is the number 0, and the
    element when every operand is truthy. *)
Inductive rendered (A : Type) : Type :=
| Nothing
| ZeroText
| Element (x : A).
Arguments Nothing {A}.
Arguments ZeroText {A}.
Arguments Element {A} x.

Definition andZ {A} (x : option Z) (rest : rendered A) : rendered A :=
  match x with
  | None => Nothing
  | Some n => if n =? 0 then ZeroText else rest
  end.

Definition andQ {A} (x : option Q) (rest : rendered A) : rendered A :=
  match x with
  | None => Nothing
  | Some q => if Qeq_bool q 0 then ZeroText else rest
  end.

(** The double nearest to an integer: the integer itself up to 2^53 in
    magnitude, and beyond that the nearest integer with a significand of 53
    bits, a tie going to the even significand. *)
Definition roundToDouble (z : Z) : Z :=
  let m := Z.abs z in
  if m <=? 2 ^ 53 then z
  else
    let e := Z.log2 m - 52 in
    let q := m / 2 ^ e in
    let rest := m mod 2 ^ e in
    let half := 2 ^ (e - 1) in
    let q' := if rest <? half then q
              else if half <? rest then q + 1
              else if Z.even q then q else q + 1 in
    Z.sgn z * (q' * 2 ^ e).

(** [a - b] on two integers held as doubles: the exact difference, rounded
    to a double (the ages of the form stay far below the largest double, so
    the difference is finite). *)
Definition subZ (a b : Z) : Z := roundToDouble (a - b).

(** The four values of the summary panel; [yearsToSave] is
    [data.retirementAge - data.age]. *)
Record Summary := mkSummary {
  summaryAge : Z;
  summaryRetirementAge : Z;
  yearsToSave : Z;
  monthlyNeeds : Q
}.

Definition summary (d : QuestionnaireData) : rendered Summary :=
  andZ (age d) (andQ (currentIncome d) (andZ (retirementAge d)
    (andQ (monthlyPayoutRequired d)
      (Element {| summaryAge := toNumberZ (age d);
                  summaryRetirementAge := toNumberZ (retirementAge d);
                  yearsToSave := subZ (toNumberZ (retirementAge d))
                                      (toNumberZ (age d));
                  monthlyNeeds := toNumberQ (monthlyPayoutRequired d) |})))).

(** The summary belongs to the block of step 4. *)
Definition summaryAt (w : State) : rendered Summary :=
  if currentStep w =? 4 then summary (data w) else Nothing.

(** No field holds the number 0. *)
Definition neverZero (d : QuestionnaireData) : Prop :=
  (forall n, age d = Some n -> n <> 0) /\
  (forall q, currentIncome d = Some q -> ~ (q == 0)%Q) /\
  (forall q, currentWealth d = Some q -> ~ (q == 0)%Q) /\
  (forall n, retirementAge d = Some n -> n <> 0) /\
  (forall q, monthlyPayoutRequired d = Some q -> ~ (q == 0)%Q).

(** A request body with every field present and in the range its step
    accepts. *)
Definition completeBody (b : AnalyzeBody) : Prop :=
  exists a r i p,
    body_age b = Some a /\ 18 <= a <= 100 /\
    body_retirement_age b = Some r /\ a < r /\
    body_current_income b = Some i /\ (0 < i)%Q /\
    (0 < body_current_wealth b)%Q /\
    body_monthly_payout_required b = Some p /\ (0 < p)%Q.

(** Every event of the list is one the page allows when its turn comes. *)
Fixpoint allEnabled (evs : list event) (w : State) : bool :=
  match evs with
  | [] => true
  | e :: evs => enabled w e && allEnabled evs (step w e)
  end.

(** The error a failed validation of a step puts on display. *)
Definition shownError (w : State) : Prop :=
  errors w = ∅ \/
  exists d, errors w = newErrors (currentStep w) d /\ size (errors w) = 1%nat.

(** A session that fills in the five steps of scenario A and submits. *)
Definition scenarioSession : list event :=
  [ ChangeAge (Some 25); ClickNext;
    ChangeIncome (Some 200000%Q); KeyPress "Enter";
    ChangeWealth (Some 100000%Q); ClickNext;
    ChangeRetirementAge (Some 40); ClickNext;
    ChangePayout (Some 5000%Q); ClickSubmit ].

End WizardView.

(** ** The advisor panel: scripted messages and the typing animation *)

Module AdvisorPanel.

(** The messages the advisor types, by step. *)
Definition advisorMessages : list (Z * list string) :=
  [ (0, [ "👋 Hi! I'm your AI Financial Advisor. Let's start by understanding your timeline.";
          "Your age helps me calculate how long your investments need to grow and how to balance risk vs. safety.";
          "For athletes, career timelines can be shorter, so we'll plan accordingly!" ]);
    (1, [ "💰 Great! Now let's talk about your income.";
          "Your income level helps me determine your savings capacity and recommend appropriate investment strategies.";
          "Higher income usually means more investment options and flexibility in planning." ]);
    (2, [ "📊 Excellent! Let's assess your current financial position.";
          "Don't worry if you're starting from scratch - the important thing is planning for the future!";
          "Your current wealth gives us a starting point for calculating what you'll need at retirement." ]);
    (3, [ "🏖️ Now the exciting part - planning your retirement!";
          "Many athletes retire earlier than traditional careers, which means you'll need to make your money last longer.";
          "We'll factor in inflation and life expectancy to ensure you're covered." ]);
    (4, [ "🎯 Final step! Let's determine your retirement income needs.";
          "Think about your desired lifestyle - will you travel? Start a business? Focus on family?";
          "Remember to account for healthcare, housing, and fun activities!" ]) ].

(** [advisorMessages[currentStep]?.messages || []] *)
Definition currentMessages (currentStep : Z) : list string :=
  match (if currentStep <? 0 then None
         else advisorMessages !! Z.to_nat currentStep) with
  | Some (_, messages) => messages
  | None => []
  end.

(** [currentMessages[currentMessageIndex] || ''] *)
Definition currentMessage (currentStep : Z) (currentMessageIndex : nat) : string :=
  default "" (currentMessages currentStep !! currentMessageIndex).

(** The [currentStep] prop and the [currentMessageIndex] state. *)
Record Panel := mkPanel {
  panelStep : Z;
  currentMessageIndex : nat
}.

Definition initialPanel : Panel := {| panelStep := 0; currentMessageIndex := 0 |}.

Definition handleNextMessage (p : Panel) : Panel :=
  if Z.of_nat (currentMessageIndex p)
     <? Z.of_nat (length (currentMessages (panelStep p))) - 1
  then {| panelStep := panelStep p;
          currentMessageIndex := currentMessageIndex p + 1 |}
  else {| panelStep := panelStep p; currentMessageIndex := 0 |}.

(** A render with a new [currentStep]: the index is still the old one. *)
Definition renderStep (s : Z) (p : Panel) : Panel :=
  {| panelStep := s; currentMessageIndex := currentMessageIndex p |}.

(** The effect on [currentStep] puts the index back to 0; it runs after the
    render whenever the step has changed. *)
Definition receiveStep (s : Z) (p : Panel) : Panel :=
  if s =? panelStep p then p
  else {| panelStep := s; currentMessageIndex := 0 |}.

Inductive panelEvent :=
| StepChanged (s : Z)
| NextMessage.

Definition panelStepOn (p : Panel) (e : panelEvent) : Panel :=
  match e with
  | StepChanged s => receiveStep s p
  | NextMessage => handleNextMessage p
  end.

Definition runPanel (evs : list panelEvent) (p : Panel) : Panel :=
  fold_left panelStepOn evs p.

(** The steps the wizard hands down. *)
Definition stepsInRange (evs : list panelEvent) : Prop :=
  Forall (fun e => match e with
                   | StepChanged s => 0 <= s <= 4
                   | NextMessage => True
                   end) evs.

Section Typing.

(** A message as its sequence of UTF-16 code units, which is what
    [length] and [substring] count. *)
Context {codeUnit : Type}.

Record Typing := mkTyping {
  index : nat;
  displayedText : list codeUnit;
  isTyping : bool;
  ticking : bool
}.

(** The body of the typing effect, run when the message changes. *)
Definition startTyping (message : list codeUnit) : Typing :=
  match message with
  | [] => {| index := 0; displayedText := []; isTyping := false; ticking := false |}
  | _ :: _ => {| index := 0; displayedText := []; isTyping := true; ticking := true |}
  end.

(** One firing of the 20 ms interval; a cleared interval fires no more. *)
Definition tick (message : list codeUnit) (t : Typing) : Typing :=
  if ticking t then
    if (index t <? length message)%nat
    then {| index := index t + 1;
            displayedText := take (index t + 1) message;
            isTyping := isTyping t; ticking := true |}
    else {| index := index t; displayedText := displayedText t;
            isTyping := false; ticking := false |}
  else t.

Definition ticks (message : list codeUnit) (n : nat) : Typing :=
  Nat.iter n (tick message) (startTyping message).

End Typing.

End AdvisorPanel.

(** ** The planning page

    [SmartPlanning] owns the questionnaire data, the current step, the
    analysis and the two visibility flags; the wizard posts the request and,
    when the answer arrives, stores the analysis and asks for the report. *)

Module SmartPlanning.
Import Wizard.

Section Page.

(** The analysis object of the backend, which the page passes on as it is. *)
Variable Analysis : Type.

Record Page := mkPage {
  wizard : State;
  analysis : option Analysis;
  showAIAdvisor : bool;
  showReportModal : bool;
  answered : nat;
  alerts : nat
}.

(** How a posted request ends: with a parsed answer, whose [analysis] field
    may be absent, or with a failure ([fetch] rejects, the status is not ok,
    or the body does not parse). *)
Inductive outcome :=
| Answer (result_analysis : option Analysis)
| Failure.

Definition initialPage : Page :=
  {| wizard := initial; analysis := None; showAIAdvisor := true;
     showReportModal := false; answered := 0; alerts := 0 |}.

(** [handleOpenModal] *)
Definition handleOpenModal (p : Page) : Page :=
  {| wizard := wizard p; analysis := analysis p;
     showAIAdvisor := showAIAdvisor p; showReportModal := true;
     answered := answered p; alerts := alerts p |}.

(** [handleDataUpdate({ analysis: result.analysis })] *)
Definition updateAnalysis (a : option Analysis) (p : Page) : Page :=
  {| wizard := wizard p; analysis := a;
     showAIAdvisor := showAIAdvisor p; showReportModal := showReportModal p;
     answered := answered p; alerts := alerts p |}.

(** The rest of [handleSubmit], run when the request settles. *)
Definition settle (o : outcome) (p : Page) : Page :=
  let p := {| wizard := wizard p; analysis := analysis p;
              showAIAdvisor := showAIAdvisor p;
              showReportModal := showReportModal p;
              answered := S (answered p); alerts := alerts p |} in
  match o with
  | Answer a => handleOpenModal (updateAnalysis a p)
  | Failure =>
      {| wizard := wizard p; analysis := analysis p;
         showAIAdvisor := showAIAdvisor p;
         showReportModal := showReportModal p;
         answered := answered p; alerts := S (alerts p) |}
  end.

Definition setShowAIAdvisor (b : bool) (p : Page) : Page :=
  {| wizard := wizard p; analysis := analysis p; showAIAdvisor := b;
     showReportModal := showReportModal p;
     answered := answered p; alerts := alerts p |}.

Definition setShowReportModal (b : bool) (p : Page) : Page :=
  {| wizard := wizard p; analysis := analysis p;
     showAIAdvisor := showAIAdvisor p; showReportModal := b;
     answered := answered p; alerts := alerts p |}.

Definition onForm (e : event) (p : Page) : Page :=
  {| wizard := step (wizard p) e; analysis := analysis p;
     showAIAdvisor := showAIAdvisor p; showReportModal := showReportModal p;
     answered := answered p; alerts := alerts p |}.

(** [showReportModal && questionnaireData.analysis] *)
Definition reportVisible (p : Page) : bool :=
  showReportModal p && bool_decide (is_Some (analysis p)).

Inductive pageEvent :=
| Form (e : event)
| Settled (o : outcome)
| CloseAdvisor
| ShowAdvisor
| SeeDetailedAnalysis
| CloseReport.

Definition pageStep (p : Page) (e : pageEvent) : Page :=
  match e with
  | Form e => onForm e p
  | Settled o => settle o p
  | CloseAdvisor => setShowAIAdvisor false p
  | ShowAdvisor => setShowAIAdvisor true p
  | SeeDetailedAnalysis => handleOpenModal p
  | CloseReport => setShowReportModal false p
  end.

(** What can happen: the events of the wizard as before, an outcome only
    for a request that is still open, and each button only where it is
    rendered. *)
Definition pageEnabled (p : Page) (e : pageEvent) : bool :=
  match e with
  | Form e => enabled (wizard p) e
  | Settled _ => (answered p <? length (sent (wizard p)))%nat
  | CloseAdvisor => showAIAdvisor p
  | ShowAdvisor => negb (showAIAdvisor p)
  | SeeDetailedAnalysis => showAIAdvisor p && bool_decide (is_Some (analysis p))
  | CloseReport => reportVisible p
  end.

Inductive pageReachable : Page -> Prop :=
| pageReachable_initial : pageReachable initialPage
| pageReachable_step p e :
    pageReachable p -> pageEnabled p e = true -> pageReachable (pageStep p e).

End Page.

Arguments wizard {Analysis} p.
Arguments analysis {Analysis} p.
Arguments showAIAdvisor {Analysis} p.
Arguments showReportModal {Analysis} p.
Arguments answered {Analysis} p.
Arguments alerts {Analysis} p.
Arguments initialPage {Analysis}.
Arguments reportVisible {Analysis} p.
Arguments pageStep {Analysis} p e.
Arguments pageEnabled {Analysis} p e.
Arguments pageReachable {Analysis} p.
Arguments Answer {Analysis} result_analysis.
Arguments Failure {Analysis}.
Arguments Form {Analysis} e.
Arguments Settled {Analysis} o.
Arguments CloseAdvisor {Analysis}.
Arguments ShowAdvisor {Analysis}.
Arguments SeeDetailedAnalysis {Analysis}.
Arguments CloseReport {Analysis}.

End SmartPlanning.

(** ** The report modal: e-mail and PDF *)

Module ReportModal.

(** [s.includes(pattern)] *)
Definition includes (s pattern : string) : bool :=
  match String.index 0 pattern s with
  | Some _ => true
  | None => false
  end.

(** The state of one mount of the modal and the traffic that mount has
    caused: the addresses of the e-mail requests posted, the requests for a
    PDF posted and settled, the pending timers that take the sent badge down
    again, the downloads started and the alerts shown. *)
Record Modal := mkModal {
  email : string;
  emailSent : bool;
  pdfGenerating : bool;
  emailRequests : list string;
  emailSettled : nat;
  resetTimers : nat;
  pdfRequests : nat;
  pdfSettled : nat;
  downloads : nat;
  modalAlerts : nat
}.

Definition initialModal : Modal :=
  {| email := ""; emailSent := false; pdfGenerating := false;
     emailRequests := []; emailSettled := 0; resetTimers := 0;
     pdfRequests := 0; pdfSettled := 0; downloads := 0; modalAlerts := 0 |}.

Definition setEmail (s : string) (m : Modal) : Modal :=
  {| email := s; emailSent := emailSent m; pdfGenerating := pdfGenerating m;
     emailRequests := emailRequests m; emailSettled := emailSettled m;
     resetTimers := resetTimers m; pdfRequests := pdfRequests m;
     pdfSettled := pdfSettled m; downloads := downloads m;
     modalAlerts := modalAlerts m |}.

Definition alert (m : Modal) : Modal :=
  {| email := email m; emailSent := emailSent m; pdfGenerating := pdfGenerating m;
     emailRequests := emailRequests m; emailSettled := emailSettled m;
     resetTimers := resetTimers m; pdfRequests := pdfRequests m;
     pdfSettled := pdfSettled m; downloads := downloads m;
     modalAlerts := S (modalAlerts m) |}.

(** [handleEmailReport] up to the [fetch] call. *)
Definition handleEmailReport (m : Modal) : Modal :=
  if String.eqb (email m) "" || negb (includes (email m) "@")
  then alert m
  else
    {| email := email m; emailSent := emailSent m; pdfGenerating := pdfGenerating m;
       emailRequests := emailRequests m ++ [email m];
       emailSettled := emailSettled m;
       resetTimers := resetTimers m; pdfRequests := pdfRequests m;
       pdfSettled := pdfSettled m; downloads := downloads m;
       modalAlerts := modalAlerts m |}.

(** The rest of [handleEmailReport]: a good answer raises the sent badge
    and starts the timer of 3000 ms, anything else alerts. *)
Definition emailAnswer (ok : bool) (m : Modal) : Modal :=
  if ok then
    {| email := email m; emailSent := true; pdfGenerating := pdfGenerating m;
       emailRequests := emailRequests m; emailSettled := S (emailSettled m);
       resetTimers := S (resetTimers m); pdfRequests := pdfRequests m;
       pdfSettled := pdfSettled m; downloads := downloads m;
       modalAlerts := modalAlerts m |}
  else
    {| email := email m; emailSent := emailSent m; pdfGenerating := pdfGenerating m;
       emailRequests := emailRequests m; emailSettled := S (emailSettled m);
       resetTimers := resetTimers m; pdfRequests := pdfRequests m;
       pdfSettled := pdfSettled m; downloads := downloads m;
       modalAlerts := S (modalAlerts m) |}.

(** The timer: [setEmailSent(false)]. *)
Definition timerFires (m : Modal) : Modal :=
  {| email := email m; emailSent := false; pdfGenerating := pdfGenerating m;
     emailRequests := emailRequests m; emailSettled := emailSettled m;
     resetTimers := pred (resetTimers m); pdfRequests := pdfRequests m;
     pdfSettled := pdfSettled m; downloads := downloads m;
     modalAlerts := modalAlerts m |}.

(** [handlePrintPDF] up to the [fetch] call. *)
Definition handlePrintPDF (m : Modal) : Modal :=
  {| email := email m; emailSent := emailSent m; pdfGenerating := true;
     emailRequests := emailRequests m; emailSettled := emailSettled m;
     resetTimers := resetTimers m; pdfRequests := S (pdfRequests m);
     pdfSettled := pdfSettled m; downloads := downloads m;
     modalAlerts := modalAlerts m |}.

(** The rest of [handlePrintPDF]: the download or the alert, and in either
    case the [finally] block. *)
Definition pdfAnswer (ok : bool) (m : Modal) : Modal :=
  {| email := email m; emailSent := emailSent m; pdfGenerating := false;
     emailRequests := emailRequests m; emailSettled := emailSettled m;
     resetTimers := resetTimers m; pdfRequests := pdfRequests m;
     pdfSettled := S (pdfSettled m);
     downloads := if ok then S (downloads m) else downloads m;
     modalAlerts := if ok then modalAlerts m else S (modalAlerts m) |}.

Inductive modalEvent :=
| TypeEmail (s : string)
| ClickEmailReport
| EmailSettled (ok : bool)
| TimerFires
| ClickDownloadPDF
| PdfSettled (ok : bool).

Definition modalStep (m : Modal) (e : modalEvent) : Modal :=
  match e with
  | TypeEmail s => setEmail s m
  | ClickEmailReport => handleEmailReport m
  | EmailSettled ok => emailAnswer ok m
  | TimerFires => timerFires m
  | ClickDownloadPDF => handlePrintPDF m
  | PdfSettled ok => pdfAnswer ok m
  end.

(** Both buttons are disabled by their flag; an answer needs an open
    request and a timer firing needs a pending timer.  These are the events
    of one mount; [ReportMounts] has the closing and opening of the
    report. *)
Definition modalEnabled (m : Modal) (e : modalEvent) : bool :=
  match e with
  | TypeEmail _ => true
  | ClickEmailReport => negb (emailSent m)
  | EmailSettled _ => (emailSettled m <? length (emailRequests m))%nat
  | TimerFires => (0 <? resetTimers m)%nat
  | ClickDownloadPDF => negb (pdfGenerating m)
  | PdfSettled _ => (pdfSettled m <? pdfRequests m)%nat
  end.

Inductive modalReachable : Modal -> Prop :=
| modalReachable_initial : modalReachable initialModal
| modalReachable_step m e :
    modalReachable m -> modalEnabled m e = true ->
    modalReachable (modalStep m e).

End ReportModal.

(** ** The report over the life of the page

    The page draws the modal only while [showReportModal] and the analysis
    are there.  Closing the report unmounts the component; opening it again
    mounts a fresh one, with an empty address and both flags down.  A
    request posted by a mount that is gone is still answered: its handler
    then runs the download or the alert, and its state setters do
    nothing, since [handlePrintPDF] and [handleEmailReport] never abort. *)

Module ReportMounts.
Import ReportModal.

(** The requests of one mount that are not settled yet. *)
Definition openPdfOf (m : Modal) : nat := pdfRequests m - pdfSettled m.
Definition openEmailOf (m : Modal) : nat :=
  length (emailRequests m) - emailSettled m.

(** The mount on display, if any, and what the mounts before it have left
    behind: their open requests, and the downloads and alerts that the
    answers to those have caused. *)
Record Report := mkReport {
  mount : option Modal;
  earlierPdf : nat;
  earlierEmail : nat;
  lateDownloads : nat;
  lateAlerts : nat
}.

Definition initialReport : Report :=
  {| mount := None; earlierPdf := 0; earlierEmail := 0;
     lateDownloads := 0; lateAlerts := 0 |}.

Inductive reportEvent :=
| ReportOpened
| ReportClosed
| InMount (e : modalEvent)
| EarlierPdfSettled (ok : bool)
| EarlierEmailSettled (ok : bool).

Definition reportStep (r : Report) (e : reportEvent) : Report :=
  match e with
  | ReportOpened =>
      {| mount := Some initialModal; earlierPdf := earlierPdf r;
         earlierEmail := earlierEmail r; lateDownloads := lateDownloads r;
         lateAlerts := lateAlerts r |}
  | ReportClosed =>
      match mount r with
      | Some m =>
          {| mount := None; earlierPdf := earlierPdf r + openPdfOf m;
             earlierEmail := earlierEmail r + openEmailOf m;
             lateDownloads := lateDownloads r; lateAlerts := lateAlerts r |}
      | None => r
      end
  | InMount e =>
      match mount r with
      | Some m =>
          {| mount := Some (modalStep m e); earlierPdf := earlierPdf r;
             earlierEmail := earlierEmail r; lateDownloads := lateDownloads r;
             lateAlerts := lateAlerts r |}
      | None => r
      end
  | EarlierPdfSettled ok =>
      {| mount := mount r; earlierPdf := pred (earlierPdf r);
         earlierEmail := earlierEmail r;
         lateDownloads := if ok then S (lateDownloads r) else lateDownloads r;
         lateAlerts := if ok then lateAlerts r else S (lateAlerts r) |}
  | EarlierEmailSettled ok =>
      {| mount := mount r; earlierPdf := earlierPdf r;
         earlierEmail := pred (earlierEmail r);
         lateDownloads := lateDownloads r;
         lateAlerts := if ok then lateAlerts r else S (lateAlerts r) |}
  end.

Definition reportEnabled (r : Report) (e : reportEvent) : bool :=
  match e with
  | ReportOpened => match mount r with None => true | Some _ => false end
  | ReportClosed => match mount r with None => false | Some _ => true end
  | InMount e =>
      match mount r with Some m => modalEnabled m e | None => false end
  | EarlierPdfSettled _ => (0 <? earlierPdf r)%nat
  | EarlierEmailSettled _ => (0 <? earlierEmail r)%nat
  end.

Inductive reportReachable : Report -> Prop :=
| reportReachable_initial : reportReachable initialReport
| reportReachable_step r e :
    reportReachable r -> reportEnabled r e = true ->
    reportReachable (reportStep r e).

(** What one mount keeps about its own requests for the PDF. *)
Definition ownPdfInOrder (m : Modal) : Prop :=
  pdfRequests m = (pdfSettled m + if pdfGenerating m then 1 else 0)%nat.

(** All requests for a PDF that are under way. *)
Definition openPdf (r : Report) : nat :=
  (earlierPdf r + match mount r with Some m => openPdfOf m | None => 0 end)%nat.

End ReportMounts.

(** * Properties of the wizard *)

Module WizardSpec.
Import Js Wizard.

Lemma Qltb_lt x y : Qltb x y = true <-> (x < y)%Q.
Proof.
  unfold Qltb. rewrite negb_true_iff, <- not_true_iff_false, Qle_bool_iff.
  split; [apply Qnot_le_lt | apply Qlt_not_le].
Qed.

Lemma Qltb_ge x y : Qltb x y = false <-> (y <= x)%Q.
Proof. unfold Qltb. rewrite negb_false_iff. apply Qle_bool_iff. Qed.

(** The flag of a step with one test: the error object has a key exactly
    when the test fired. *)
Lemma flag_of_test (b : bool) (k v : string) :
  (size (if b then <[k := v]> ∅ else ∅ : gmap string string) =? 0)%nat = negb b.
Proof.
  destruct b; cbn [negb].
  - apply Nat.eqb_neq. rewrite map_size_empty_iff. apply insert_non_empty.
  - apply Nat.eqb_eq. by apply map_size_empty_iff.
Qed.

Ltac step_equation :=
  unfold validateStep; cbv beta iota zeta delta [newErrors];
  rewrite flag_of_test; reflexivity.

Lemma validateStep_age d :
  validateStep 0 d =
  let b := notZ (age d) || (toNumberZ (age d) <? 18) || (toNumberZ (age d) >? 100) in
  (if b then <["age" := ageError]> ∅ else ∅, negb b).
Proof. step_equation. Qed.

Lemma validateStep_income d :
  validateStep 1 d =
  let b := notQ (currentIncome d) || Qltb (toNumberQ (currentIncome d)) 0 in
  (if b then <["currentIncome" := incomeError]> ∅ else ∅, negb b).
Proof. step_equation. Qed.

Lemma validateStep_wealth d :
  validateStep 2 d =
  let b := match currentWealth d with None => true | Some _ => false end
           || Qltb (toNumberQ (currentWealth d)) 0 in
  (if b then <["currentWealth" := wealthError]> ∅ else ∅, negb b).
Proof. step_equation. Qed.

Lemma validateStep_retirement d :
  validateStep 3 d =
  let b := notZ (retirementAge d)
           || (toNumberZ (retirementAge d) <=? orZ (age d) 0) in
  (if b then <["retirementAge" := retirementError]> ∅ else ∅, negb b).
Proof. step_equation. Qed.

Lemma validateStep_payout d :
  validateStep 4 d =
  let b := notQ (monthlyPayoutRequired d)
           || Qltb (toNumberQ (monthlyPayoutRequired d)) 0 in
  (if b then <["monthlyPayoutRequired" := payoutError]> ∅ else ∅, negb b).
Proof. step_equation. Qed.

(** Outside the five steps nothing is tested. *)
Lemma validateStep_other s d :
  s < 0 \/ 4 < s -> validateStep s d = (∅, true).
Proof.
  intros H. unfold validateStep.
  assert (E : newErrors s d = ∅).
  { unfold newErrors. destruct s as [|p|p]; [lia | | done].
    destruct p as [[[]|[]|]|[[]|[]|]|]; first [reflexivity | lia]. }
  by rewrite E.
Qed.

(** ** The age step *)

(** What step 0 tests, as a proposition. *)
Lemma age_test d :
  notZ (age d) || (toNumberZ (age d) <? 18) || (toNumberZ (age d) >? 100) = false
  <-> exists a, age d = Some a /\ 18 <= a <= 100.
Proof.
  unfold notZ, toNumberZ. destruct (age d) as [a|]; simpl.
  - rewrite !orb_false_iff, Z.eqb_neq, Z.ltb_ge, Z.gtb_ltb, Z.ltb_ge. split.
    + intros [[? ?] ?]. exists a. split; [done | lia].
    + intros (b & [= <-] & ?). lia.
  - split; [done | intros (b & ? & _); done].
Qed.

Lemma age_accepted d :
  snd (validateStep 0 d) = true <-> exists a, age d = Some a /\ 18 <= a <= 100.
Proof.
  rewrite validateStep_age. cbv zeta. cbn [snd].
  rewrite negb_true_iff. apply age_test.
Qed.

(** C6. For every questionnaire state, the validation of the age step
    succeeds exactly when the current age is an integer between 18 and 100;
    an age below 18, above 100 or missing is rejected, and the error of the
    [age] field is recorded. *)
Theorem age_step_accepts_exactly_18_to_100 (d : QuestionnaireData) :
  (snd (validateStep 0 d) = true <-> exists a, age d = Some a /\ 18 <= a <= 100)
  /\ (age d = None \/ (exists a, age d = Some a /\ (a < 18 \/ 100 < a)) ->
      snd (validateStep 0 d) = false /\
      fst (validateStep 0 d) = <["age" := ageError]> ∅).
Proof.
  rewrite validateStep_age. cbv zeta. cbn [fst snd].
  rewrite <- age_test, negb_true_iff. split; [done |].
  intros H.
  assert (E : notZ (age d) || (toNumberZ (age d) <? 18)
              || (toNumberZ (age d) >? 100) = true).
  { apply not_false_iff_true. rewrite age_test. intros (a & Ha & ?).
    destruct H as [H | (b & Hb & ?)]; [congruence |].
    assert (a = b) by congruence. lia. }
  by rewrite E.
Qed.

(** ** The wealth step *)

Lemma wealth_test d :
  match currentWealth d with None => true | Some _ => false end
  || Qltb (toNumberQ (currentWealth d)) 0 = false
  <-> exists w, currentWealth d = Some w /\ (0 <= w)%Q.
Proof.
  unfold toNumberQ. destruct (currentWealth d) as [w|]; simpl.
  - rewrite Qltb_ge. split; [eauto | by intros (v & [= <-] & ?)].
  - split; [done | intros (v & ? & _); done].
Qed.

Lemma wealth_test_fires d :
  match currentWealth d with None => true | Some _ => false end
  || Qltb (toNumberQ (currentWealth d)) 0 = true
  <-> currentWealth d = None \/ exists w, currentWealth d = Some w /\ (w < 0)%Q.
Proof.
  unfold toNumberQ. destruct (currentWealth d) as [w|]; simpl.
  - rewrite Qltb_lt. split; [eauto |].
    by intros [? | (v & [= <-] & ?)].
  - split; [by left | done].
Qed.

(** C8. For every questionnaire state, the validation of the wealth step
    accepts a current wealth of 0 and every non-negative amount, and it
    rejects exactly the missing (null) and the negative amounts, recording
    the error of the [currentWealth] field. *)
Theorem wealth_step_accepts_zero_and_above (d : QuestionnaireData) :
  (snd (validateStep 2 d) = true <->
     exists w, currentWealth d = Some w /\ (0 <= w)%Q)
  /\ (forall w, currentWealth d = Some w -> (w == 0)%Q ->
        snd (validateStep 2 d) = true)
  /\ (snd (validateStep 2 d) = false <->
        currentWealth d = None \/
        exists w, currentWealth d = Some w /\ (w < 0)%Q)
  /\ (snd (validateStep 2 d) = false ->
        fst (validateStep 2 d) = <["currentWealth" := wealthError]> ∅).
Proof.
  rewrite validateStep_wealth. cbv zeta. cbn [fst snd].
  split; [| split; [| split]].
  - rewrite negb_true_iff. apply wealth_test.
  - intros w Hw Hz. apply negb_true_iff, wealth_test. exists w.
    split; [done |]. rewrite Hz. apply Qle_refl.
  - rewrite negb_false_iff. apply wealth_test_fires.
  - intros H. apply negb_false_iff in H. by rewrite H.
Qed.

(** The wealth input itself cannot store 0: its change handler keeps
    [parseFloat(value) || null], and [0 || null] is [null].  A typed 0
    therefore meets the step as a missing amount. *)
Lemma changeWealth_zero_is_null d :
  currentWealth (changeWealth (Some 0%Q) d) = None.
Proof. reflexivity. Qed.

Lemma typed_zero_wealth_stays_at_the_wealth_step :
  currentStep (run startFromScratch initial) = 2 /\
  errors (run startFromScratch initial) = <["currentWealth" := wealthError]> ∅.
Proof. split; vm_compute; reflexivity. Qed.

(** ** The retirement step *)

Lemma orZ_age d :
  orZ (age d) 0 = match age d with Some a => a | None => 0 end.
Proof.
  unfold orZ, notZ, toNumberZ. destruct (age d) as [a|]; simpl; [| done].
  destruct (Z.eqb_spec a 0); congruence.
Qed.

Lemma retirement_test d :
  notZ (retirementAge d) || (toNumberZ (retirementAge d) <=? orZ (age d) 0) = false
  <-> exists r, retirementAge d = Some r /\ r <> 0 /\
        match age d with Some a => a < r | None => 0 < r end.
Proof.
  rewrite orZ_age. unfold notZ, toNumberZ.
  destruct (retirementAge d) as [r|]; simpl.
  - rewrite orb_false_iff, Z.eqb_neq, Z.leb_gt. split.
    + intros [? ?]. exists r. by destruct (age d).
    + intros (q & [= <-] & ? & ?). by destruct (age d).
  - split; [done | intros (q & ? & _); done].
Qed.

Lemma retirement_accepted d :
  snd (validateStep 3 d) = true <->
  exists r, retirementAge d = Some r /\ r <> 0 /\
    match age d with Some a => a < r | None => 0 < r end.
Proof.
  rewrite validateStep_retirement. cbv zeta. cbn [snd].
  rewrite negb_true_iff. apply retirement_test.
Qed.

Lemma retirement_rejected d :
  snd (validateStep 3 d) = false ->
  fst (validateStep 3 d) = <["retirementAge" := retirementError]> ∅.
Proof.
  rewrite validateStep_retirement. cbv zeta. cbn [fst snd].
  intros H. apply negb_false_iff in H. by rewrite H.
Qed.

Lemma lastStep_is_4 : lastStep = 4.
Proof. reflexivity. Qed.

(** A handler that runs a failed validation only stores the errors. *)
Lemma handleNext_rejected w :
  snd (validateStep (currentStep w) (data w)) = false ->
  handleNext w = setErrors (fst (validateStep (currentStep w) (data w))) w.
Proof.
  unfold handleNext. destruct (validateStep _ _) as [e ok]. cbn [fst snd].
  by intros ->.
Qed.

Lemma handleSubmit_rejected w :
  snd (validateStep (currentStep w) (data w)) = false ->
  handleSubmit w = setErrors (fst (validateStep (currentStep w) (data w))) w.
Proof.
  unfold handleSubmit. destruct (validateStep _ _) as [e ok]. cbn [fst snd].
  by intros ->.
Qed.

Lemma handleSubmit_accepted w :
  snd (validateStep (currentStep w) (data w)) = true ->
  handleSubmit w =
  fetchAnalyze (requestBody (data w))
    (setErrors (fst (validateStep (currentStep w) (data w))) w).
Proof.
  unfold handleSubmit. destruct (validateStep _ _) as [e ok]. cbn [fst snd].
  by intros ->.
Qed.

(** ** What a session can post *)

Lemma initial_invariant : invariant initial.
Proof.
  unfold invariant, earlierStepsPass. cbn [initial currentStep sent].
  split; [lia |]. split; [| constructor]. repeat split; lia.
Qed.

(** A change of one field does not touch what the earlier steps test. *)
Lemma change_invariant w d' :
  invariant w ->
  (0 < currentStep w -> age d' = age (data w)) ->
  (1 < currentStep w -> currentIncome d' = currentIncome (data w)) ->
  (2 < currentStep w -> currentWealth d' = currentWealth (data w)) ->
  (3 < currentStep w -> retirementAge d' = retirementAge (data w)) ->
  invariant (onDataUpdate d' w).
Proof.
  intros (Hr & (P0 & P1 & P2 & P3) & Hs) Ea Ei Ew Er.
  unfold invariant, earlierStepsPass.
  cbn [onDataUpdate currentStep data sent].
  split; [done |]. split; [| done].
  split; [| split; [| split]]; intros Hlt.
  - specialize (P0 Hlt). rewrite validateStep_age in *. cbv zeta in *.
    by rewrite Ea.
  - specialize (P1 Hlt). rewrite validateStep_income in *. cbv zeta in *.
    by rewrite Ei.
  - specialize (P2 Hlt). rewrite validateStep_wealth in *. cbv zeta in *.
    by rewrite Ew.
  - specialize (P3 Hlt). rewrite validateStep_retirement in *. cbv zeta in *.
    rewrite Er by done. rewrite Ea by lia. done.
Qed.

Lemma setErrors_invariant e w : invariant w -> invariant (setErrors e w).
Proof. done. Qed.

Lemma handleNext_invariant w : invariant w -> invariant (handleNext w).
Proof.
  intros Hinv. unfold handleNext.
  destruct (validateStep (currentStep w) (data w)) as [e ok] eqn:V.
  destruct ok; [| by apply setErrors_invariant].
  cbn [setErrors currentStep]. rewrite lastStep_is_4.
  destruct (Z.ltb_spec (currentStep w) 4) as [Hlt | Hge];
    [| by apply setErrors_invariant].
  assert (Hok : snd (validateStep (currentStep w) (data w)) = true)
    by (by rewrite V).
  destruct Hinv as (Hr & (P0 & P1 & P2 & P3) & Hs).
  unfold invariant, earlierStepsPass.
  cbn [onStepChange setErrors currentStep data sent].
  split; [lia |]. split; [| done].
  split; [| split; [| split]]; intros H;
    match goal with
    | |- snd (validateStep ?j _) = true =>
        destruct (Z.eq_dec (currentStep w) j) as [E | N];
          [by rewrite E in Hok | auto with lia]
    end.
Qed.

Lemma handlePrevious_invariant w : invariant w -> invariant (handlePrevious w).
Proof.
  intros Hinv. unfold handlePrevious. rewrite Z.gtb_ltb.
  destruct (Z.ltb_spec 0 (currentStep w)); [| done].
  destruct Hinv as (Hr & (P0 & P1 & P2 & P3) & Hs).
  unfold invariant, earlierStepsPass.
  cbn [onStepChange setErrors currentStep data sent].
  split; [lia |]. split; [| done].
  split; [| split; [| split]]; intros Hlt; auto with lia.
Qed.

Lemma handleSubmit_invariant w :
  invariant w -> currentStep w = 4 -> invariant (handleSubmit w).
Proof.
  intros Hinv H4. unfold handleSubmit.
  destruct (validateStep (currentStep w) (data w)) as [e ok].
  destruct ok; [| by apply setErrors_invariant].
  destruct Hinv as (Hr & Hp & Hs).
  unfold invariant, earlierStepsPass in *.
  cbn [fetchAnalyze setErrors currentStep data sent].
  split; [done |]. split; [done |].
  apply Forall_app. split; [done |]. constructor; [| constructor].
  destruct Hp as (P0 & _ & _ & P3).
  apply age_accepted in P0; [| lia]. apply retirement_accepted in P3; [| lia].
  destruct P0 as (a & Ha & _). destruct P3 as (r & Hr' & _ & Hlt).
  rewrite Ha in Hlt. exists a, r. by cbn [requestBody body_age body_retirement_age].
Qed.

Lemma step_invariant w e :
  invariant w -> enabled w e = true -> invariant (step w e).
Proof.
  intros Hinv Hen. pose proof Hinv as (Hr & _).
  destruct e; cbn [step enabled] in *.
  - apply Z.eqb_eq in Hen. apply change_invariant; [done | lia..].
  - apply Z.eqb_eq in Hen. apply change_invariant; [done | done | lia..].
  - apply Z.eqb_eq in Hen. apply change_invariant; [done | done | done | lia..].
  - apply Z.eqb_eq in Hen. apply change_invariant; [done | done | done | done | lia].
  - by apply change_invariant.
  - by apply handleNext_invariant.
  - by apply handlePrevious_invariant.
  - rewrite lastStep_is_4 in Hen. apply negb_true_iff, Z.ltb_ge in Hen.
    apply handleSubmit_invariant; [done | lia].
  - unfold handleKeyPress. destruct (String.eqb key "Enter"); [| done].
    rewrite lastStep_is_4. destruct (Z.ltb_spec (currentStep w) 4).
    + by apply handleNext_invariant.
    + apply handleSubmit_invariant; [done | lia].
Qed.

Lemma reachable_invariant w : reachable w -> invariant w.
Proof.
  induction 1 as [| w e _ IH Hen]; [apply initial_invariant |].
  by apply step_invariant.
Qed.

(** In a session of the page the last step is reached only with the four
    earlier steps passing on the data as it stands. *)
Lemma reachable_last_step w :
  reachable w -> currentStep w = 4 ->
  forall s, In s [0; 1; 2; 3] -> snd (validateStep s (data w)) = true.
Proof.
  intros Hw H4 s Hs. apply reachable_invariant in Hw as (_ & (P0 & P1 & P2 & P3) & _).
  destruct Hs as [<- | [<- | [<- | [<- | []]]]]; auto with lia.
Qed.

(** C5. For every questionnaire state, the validation of the retirement
    step succeeds only when the retirement age is strictly greater than the
    current age (a missing current age is compared as 0, the value of
    [data.age || 0]).  When the retirement age is not greater than the
    current age, the error citing the order of the two ages is recorded, and
    at that step no handler posts the analysis request or leaves the step
    forwards.  Over a whole session of the page, no request is ever posted
    whose retirement age is not greater than its age. *)
Theorem retirement_step_requires_later_age (d : QuestionnaireData) :
  (snd (validateStep 3 d) = true ->
     exists r, retirementAge d = Some r /\
       (forall a, age d = Some a -> a < r) /\ (age d = None -> 0 < r))
  /\ (forall a r, age d = Some a -> retirementAge d = Some r -> r <= a ->
        snd (validateStep 3 d) = false /\
        fst (validateStep 3 d) = <["retirementAge" := retirementError]> ∅ /\
        forall w, data w = d -> currentStep w = 3 ->
          (sent (handleNext w) = sent w /\ currentStep (handleNext w) = 3 /\
           errors (handleNext w) = <["retirementAge" := retirementError]> ∅) /\
          sent (handleSubmit w) = sent w /\
          (forall k, sent (handleKeyPress k w) = sent w /\
                     currentStep (handleKeyPress k w) = 3))
  /\ (forall w, reachable w -> Forall agesInOrder (sent w)).
Proof.
  split; [| split].
  - intros H. apply retirement_accepted in H. destruct H as (r & Hr & _ & Hlt).
    exists r. split; [done |]. split.
    + intros a Ha. by rewrite Ha in Hlt.
    + intros Ha. by rewrite Ha in Hlt.
  - intros a r Ha Hr Hle.
    assert (F : snd (validateStep 3 d) = false).
    { apply not_true_iff_false. intros H. apply retirement_accepted in H.
      destruct H as (q & Hq & _ & Hlt). rewrite Ha in Hlt.
      assert (q = r) by congruence. lia. }
    split; [done |]. split; [by apply retirement_rejected |].
    intros w Hd Hs.
    pose proof (handleNext_rejected w) as N.
    pose proof (handleSubmit_rejected w) as S.
    rewrite Hs, Hd in N, S. specialize (N F). specialize (S F).
    pose proof (retirement_rejected d F) as R.
    split; [| split].
    + rewrite N. by cbn [sent currentStep errors setErrors].
    + rewrite S. by cbn [sent setErrors].
    + intros k. unfold handleKeyPress. rewrite Hs, lastStep_is_4.
      destruct (String.eqb k "Enter"); [| done].
      change (3 <? 4) with true. cbv iota. rewrite N.
      by cbn [sent currentStep setErrors].
  - intros w Hw. by apply reachable_invariant in Hw as (_ & _ & ?).
Qed.

(** C7. The validation of the retirement step does not bound the
    retirement age by 100: in a session that enters age 30 and retirement
    age 150, the step is accepted, the wizard moves on to the last step and
    the submit handler posts a request with [retirement_age] 150. *)
Theorem retirement_age_150_is_accepted :
  snd (validateStep 3 (data (run (firstn 7 lateRetirement) initial))) = true
  /\ currentStep (run (firstn 7 lateRetirement) initial) = 3
  /\ currentStep (run (firstn 8 lateRetirement) initial) = 4
  /\ map body_retirement_age (sent (run lateRetirement initial)) = [Some 150]
  /\ map body_age (sent (run lateRetirement initial)) = [Some 30].
Proof. repeat split; vm_compute; reflexivity. Qed.

(** ** The submit handler *)

Lemma payout_test d :
  notQ (monthlyPayoutRequired d) || Qltb (toNumberQ (monthlyPayoutRequired d)) 0
  = false
  <-> exists p, monthlyPayoutRequired d = Some p /\ (0 < p)%Q.
Proof.
  unfold notQ, toNumberQ. destruct (monthlyPayoutRequired d) as [p|]; simpl.
  - rewrite orb_false_iff, Qltb_ge, <- not_true_iff_false, Qeq_bool_iff. split.
    + intros [Hne Hle]. exists p. split; [done |].
      apply Qle_lt_or_eq in Hle. destruct Hle as [? | E]; [done |].
      destruct Hne. by symmetry.
    + intros (q & [= <-] & Hlt). split; [| by apply Qlt_le_weak].
      intros E. rewrite E in Hlt. by apply Qlt_irrefl in Hlt.
  - split; [done | intros (q & ? & _); done].
Qed.

Lemma payout_accepted d :
  snd (validateStep 4 d) = true <->
  exists p, monthlyPayoutRequired d = Some p /\ (0 < p)%Q.
Proof.
  rewrite validateStep_payout. cbv zeta. cbn [snd].
  rewrite negb_true_iff. apply payout_test.
Qed.

(** C9. When the submit handler runs at the last step, the payout check of
    step 4 alone decides whether the analysis request is posted: with a
    positive payout it is posted whatever the other four fields hold, also
    when the steps of age, income, wealth and retirement age would all
    reject them; the body carries the fields as they are, and a missing
    current wealth goes out as 0. *)
Theorem submit_checks_only_the_payout (w : State) :
  currentStep w = 4 ->
  ((exists p, monthlyPayoutRequired (data w) = Some p /\ (0 < p)%Q) ->
     sent (handleSubmit w) = sent w ++ [requestBody (data w)])
  /\ (~ (exists p, monthlyPayoutRequired (data w) = Some p /\ (0 < p)%Q) ->
       sent (handleSubmit w) = sent w)
  /\ (body_age (requestBody (data w)) = age (data w) /\
      body_retirement_age (requestBody (data w)) = retirementAge (data w) /\
      body_current_income (requestBody (data w)) = currentIncome (data w) /\
      body_monthly_payout_required (requestBody (data w))
        = monthlyPayoutRequired (data w))
  /\ (currentWealth (data w) = None ->
       body_current_wealth (requestBody (data w)) = 0%Q)
  /\ (currentStep onlyPayout = 4 /\
      (forall s, In s [0; 1; 2; 3] -> snd (validateStep s (data onlyPayout)) = false) /\
      sent (handleSubmit onlyPayout) = [requestBody (data onlyPayout)] /\
      body_current_wealth (requestBody (data onlyPayout)) = 0%Q).
Proof.
  intros Hs. split; [| split; [| split; [| split]]].
  - intros H. rewrite handleSubmit_accepted; [done |].
    rewrite Hs. by apply payout_accepted.
  - intros H. rewrite handleSubmit_rejected; [done |].
    rewrite Hs. apply not_true_iff_false. by rewrite payout_accepted.
  - done.
  - intros H. unfold requestBody. cbn [body_current_wealth]. by rewrite H.
  - split; [done |]. split; [| split].
    + intros s [<- | [<- | [<- | [<- | []]]]].
      * by rewrite validateStep_age.
      * by rewrite validateStep_income.
      * by rewrite validateStep_wealth.
      * by rewrite validateStep_retirement.
    + rewrite handleSubmit_accepted; [done |].
      apply payout_accepted. exists 5000%Q. done.
    + done.
Qed.

(** ** Navigation *)

Lemma handleNext_step w :
  currentStep (handleNext w) =
  if snd (validateStep (currentStep w) (data w)) && (currentStep w <? 4)
  then currentStep w + 1 else currentStep w.
Proof.
  unfold handleNext. rewrite lastStep_is_4.
  destruct (validateStep _ _) as [e ok]. cbn [snd].
  destruct ok; cbn [andb]; [| done].
  cbn [currentStep setErrors]. by destruct (currentStep w <? 4).
Qed.

Lemma handleSubmit_step w : currentStep (handleSubmit w) = currentStep w.
Proof.
  unfold handleSubmit. destruct (validateStep _ _) as [e ok]. by destruct ok.
Qed.

Lemma handlePrevious_step w :
  currentStep (handlePrevious w) =
  if 0 <? currentStep w then currentStep w - 1 else currentStep w.
Proof.
  unfold handlePrevious. rewrite Z.gtb_ltb. by destruct (0 <? currentStep w).
Qed.

Lemma handleKeyPress_step k w :
  currentStep (handleKeyPress k w) = currentStep w \/
  currentStep (handleKeyPress k w) = currentStep (handleNext w).
Proof.
  unfold handleKeyPress. destruct (String.eqb k "Enter"); [| by left].
  destruct (currentStep w <? lastStep); [by right |].
  left. apply handleSubmit_step.
Qed.

Lemma handleNext_in_range w :
  0 <= currentStep w <= 4 -> 0 <= currentStep (handleNext w) <= 4.
Proof.
  intros H. rewrite handleNext_step.
  destruct (snd _); cbn [andb]; [| done].
  destruct (Z.ltb_spec (currentStep w) 4); lia.
Qed.

Lemma step_in_range w e :
  0 <= currentStep w <= 4 -> 0 <= currentStep (step w e) <= 4.
Proof.
  intros H. destruct e; cbn [step]; try done.
  - by apply handleNext_in_range.
  - rewrite handlePrevious_step. destruct (Z.ltb_spec 0 (currentStep w)); lia.
  - by rewrite handleSubmit_step.
  - destruct (handleKeyPress_step key w) as [-> | ->];
      [done | by apply handleNext_in_range].
Qed.

Lemma run_in_range evs : forall w,
  0 <= currentStep w <= 4 -> 0 <= currentStep (run evs w) <= 4.
Proof.
  induction evs as [|e evs IH]; intros w H; [done |].
  apply IH. by apply step_in_range.
Qed.

(** C10. Under every sequence of events (changes of the fields, next,
    previous, submit and key presses) the current step of the wizard stays
    between 0 and 4.  [handleNext] adds one exactly when the validation of
    the current step passes and the step is below 4, and leaves the step
    alone otherwise; [handlePrevious] subtracts one exactly when the step is
    above 0, and then also empties the error object. *)
Theorem currentStep_stays_within_the_steps :
  (forall evs w, 0 <= currentStep w <= 4 -> 0 <= currentStep (run evs w) <= 4)
  /\ (forall evs, 0 <= currentStep (run evs initial) <= 4)
  /\ (forall w, currentStep (handleNext w) =
        if snd (validateStep (currentStep w) (data w)) && (currentStep w <? 4)
        then currentStep w + 1 else currentStep w)
  /\ (forall w, currentStep (handlePrevious w) =
        if 0 <? currentStep w then currentStep w - 1 else currentStep w)
  /\ (forall w, 0 < currentStep w -> errors (handlePrevious w) = ∅)
  /\ (forall w, currentStep w <= 0 -> handlePrevious w = w).
Proof.
  split; [| split; [| split; [| split; [| split]]]].
  - intros evs w. apply run_in_range.
  - intros evs. by apply run_in_range.
  - apply handleNext_step.
  - apply handlePrevious_step.
  - intros w H. unfold handlePrevious. rewrite Z.gtb_ltb.
    destruct (Z.ltb_spec 0 (currentStep w)); [done | lia].
  - intros w H. unfold handlePrevious. rewrite Z.gtb_ltb.
    destruct (Z.ltb_spec 0 (currentStep w)); [lia | done].
Qed.

(** ** The theorems at concrete states *)

Lemma retirement_step_requires_later_age_witness :
  snd (validateStep 3 retireBeforeAge) = false /\
  fst (validateStep 3 retireBeforeAge)
  = <["retirementAge" := retirementError]> ∅.
Proof.
  destruct (retirement_step_requires_later_age retireBeforeAge) as (_ & H & _).
  destruct (H 45 40 eq_refl eq_refl) as (F & E & _); [lia |].
  exact (conj F E).
Defined.

Lemma age_step_accepts_exactly_18_to_100_witness :
  snd (validateStep 0 retireBeforeAge) = true /\
  snd (validateStep 0 initialData) = false.
Proof.
  destruct (age_step_accepts_exactly_18_to_100 retireBeforeAge) as [[_ H] _].
  destruct (age_step_accepts_exactly_18_to_100 initialData) as [_ H'].
  split.
  - apply H. exists 45. split; [reflexivity | lia].
  - apply H'. left. reflexivity.
Defined.

Lemma wealth_step_accepts_zero_and_above_witness :
  snd (validateStep 2 retireBeforeAge) = true /\
  snd (validateStep 2 initialData) = false.
Proof.
  destruct (wealth_step_accepts_zero_and_above retireBeforeAge) as (_ & H & _).
  destruct (wealth_step_accepts_zero_and_above initialData) as (_ & _ & [_ H'] & _).
  split.
  - apply (H 0%Q); reflexivity.
  - apply H'. left. reflexivity.
Defined.

Lemma submit_checks_only_the_payout_witness :
  currentStep onlyPayout = 4 /\
  sent (handleSubmit onlyPayout) = sent onlyPayout ++ [requestBody (data onlyPayout)].
Proof.
  split; [reflexivity |].
  destruct (submit_checks_only_the_payout onlyPayout eq_refl) as [H _].
  apply H. exists 5000%Q. split; reflexivity.
Defined.

Lemma currentStep_stays_within_the_steps_witness :
  0 <= currentStep initial <= 4 /\
  0 <= currentStep (run lateRetirement initial) <= 4.
Proof.
  assert (H : 0 <= currentStep initial <= 4) by (simpl; lia).
  split; [exact H |].
  destruct currentStep_stays_within_the_steps as [R _].
  exact (R lateRetirement initial H).
Defined.

End WizardSpec.

(** * Properties of the projection engine *)

Module EngineSpec.
Import Engine.

Section MonthlyRate.

Variable monthlyEquivalent : Q -> Q.

(** The monthly equivalent of a growth rate that is not negative is not
    negative. *)
Hypothesis monthlyEquivalent_nonneg :
  forall g, (0 <= g)%Q -> (0 <= monthlyEquivalent g)%Q.

Lemma negative_false x : (0 <= x)%Q -> negative x = false.
Proof. intros H. unfold negative. apply negb_false_iff. by apply Qle_bool_iff. Qed.

Lemma valid_no_negative_field i : validInputs i -> negativeFields i = [].
Proof.
  intros (_ & _ & _ & Hw & Hi & Hp). unfold negativeFields.
  rewrite !negative_false; [done | by apply Qlt_le_weak.. | done].
Qed.

Lemma valid_years i :
  validInputs i -> (retirementAge i - currentAge i <=? 0) = false.
Proof. intros (_ & _ & H & _). apply Z.leb_gt. lia. Qed.

(** On valid inputs the engine fails only for a withdrawal rate of 0, and
    otherwise returns the record of its steps. *)
Lemma computeProjection_zero_rate i a :
  validInputs i -> (withdrawalRate a == 0)%Q ->
  computeProjection monthlyEquivalent i a = inl (ValidationError ["withdrawalRate"]).
Proof.
  intros Hv Hz. unfold computeProjection.
  rewrite (valid_no_negative_field i Hv), (valid_years i Hv).
  apply Qeq_bool_iff in Hz. by rewrite Hz.
Qed.

Lemma computeProjection_valid i a :
  validInputs i -> ~ (withdrawalRate a == 0)%Q ->
  computeProjection monthlyEquivalent i a =
  inr (let years := retirementAge i - currentAge i in
       let annual := (monthlyPayoutRequired i * 12)%Q in
       let corpus := (annual / withdrawalRate a)%Q in
       let projected :=
         (currentWealth i * (1 + growthRatePreRetirement a) ^ years)%Q in
       let gap := (corpus - projected)%Q in
       let savings :=
         monthlySavings monthlyEquivalent gap (growthRatePreRetirement a) years in
       {| yearsToRetirement := years;
          annualPayoutRequired := annual;
          requiredCorpus := corpus;
          projectedWealthAtRetirement := projected;
          wealthGap := gap;
          requiredMonthlySavings := savings;
          savingsRatePercentage := (savings * 12 / currentIncome i * 100)%Q;
          isOnTrack := Qle_bool gap 0 |}).
Proof.
  intros Hv Hz. unfold computeProjection.
  rewrite (valid_no_negative_field i Hv), (valid_years i Hv).
  destruct (Qeq_bool (withdrawalRate a) 0) eqn:E; [| done].
  by apply Qeq_bool_iff in E.
Qed.

(** Whatever the engine returns was built by its steps. *)
Lemma computeProjection_result i a r :
  computeProjection monthlyEquivalent i a = inr r ->
  wealthGap r = (requiredCorpus r - projectedWealthAtRetirement r)%Q /\
  isOnTrack r = Qle_bool (wealthGap r) 0 /\
  requiredMonthlySavings r =
    monthlySavings monthlyEquivalent (wealthGap r) (growthRatePreRetirement a)
      (yearsToRetirement r).
Proof.
  unfold computeProjection. destruct (negativeFields i); [| done].
  destruct (_ <=? 0); [done |]. destruct (Qeq_bool _ 0); [done |].
  by intros [= <-].
Qed.

(** A retirement age that is not after the current age is an error of
    step 1, before any of the amounts is computed. *)
Lemma computeProjection_ages_out_of_order i a :
  negativeFields i = [] -> retirementAge i <= currentAge i ->
  computeProjection monthlyEquivalent i a = inl (ValidationError ["retirementAge"]).
Proof.
  intros Hn Hle. unfold computeProjection. rewrite Hn.
  destruct (Z.leb_spec (retirementAge i - currentAge i) 0); [done | lia].
Qed.

(** C1. For every valid input and every assumption set, the engine fails
    with a validation error when the withdrawal rate is 0; otherwise it
    returns a result whose annual payout is twelve monthly payouts and whose
    required corpus is that annual payout divided by the withdrawal rate,
    exactly. *)
Theorem corpus_is_annual_payout_over_withdrawal_rate
    (i : AthleteFinancialInputs) (a : AssumptionSet) :
  validInputs i ->
  ((withdrawalRate a == 0)%Q ->
     computeProjection monthlyEquivalent i a
     = inl (ValidationError ["withdrawalRate"]))
  /\ (~ (withdrawalRate a == 0)%Q ->
       exists r, computeProjection monthlyEquivalent i a = inr r /\
         (annualPayoutRequired r == monthlyPayoutRequired i * 12)%Q /\
         (requiredCorpus r == annualPayoutRequired r / withdrawalRate a)%Q /\
         (requiredCorpus r * withdrawalRate a == monthlyPayoutRequired i * 12)%Q).
Proof.
  intros Hv. split; intros Hz.
  - by apply computeProjection_zero_rate.
  - eexists. split; [by apply computeProjection_valid |].
    cbv zeta. cbn [annualPayoutRequired requiredCorpus].
    repeat split; try reflexivity. by field.
Qed.

(** ** The savings of step 6 *)

Lemma monthlySavings_no_gap gap growth years :
  (gap <= 0)%Q -> monthlySavings monthlyEquivalent gap growth years = 0%Q.
Proof. intros H. unfold monthlySavings. apply Qle_bool_iff in H. by rewrite H. Qed.

Lemma monthlySavings_gap gap growth years :
  (0 < gap)%Q ->
  monthlySavings monthlyEquivalent gap growth years =
  (gap / annuityFactor (monthlyEquivalent growth) (years * 12))%Q.
Proof.
  intros H. unfold monthlySavings. destruct (Qle_bool gap 0) eqn:E; [| done].
  apply Qle_bool_iff in E. by apply Qlt_not_le in H.
Qed.

Lemma annuityFactor_pos r n : (0 <= r)%Q -> 0 < n -> (0 < annuityFactor r n)%Q.
Proof.
  intros Hr Hn. unfold annuityFactor. destruct (Qeq_bool r 0) eqn:E.
  - change 0%Q with (inject_Z 0). by rewrite <- Zlt_Qlt.
  - assert (Hpos : (0 < r)%Q).
    { apply Qle_lt_or_eq in Hr. destruct Hr as [? | Hz]; [done |].
      apply not_true_iff_false in E. destruct E. apply Qeq_bool_iff. by symmetry. }
    assert (Hpow : (1 < (1 + r) ^ n)%Q) by (apply Qpower_1_lt; [lra | done]).
    apply Qlt_shift_div_l; [done | lra].
Qed.


Lemma monthlySavings_pos gap growth years :
  (0 <= growth)%Q -> 0 < years -> (0 < gap)%Q ->
  (0 < monthlySavings monthlyEquivalent gap growth years)%Q.
Proof.
  intros Hg Hy Hgap. rewrite monthlySavings_gap by done.
  apply Qlt_shift_div_l; [apply annuityFactor_pos; [auto | lia] | lra].
Qed.

(** The payment solves the annuity equation of step 6. *)
Lemma monthlySavings_solves_annuity gap growth years :
  (0 <= growth)%Q -> 0 < years -> (0 < gap)%Q ->
  (monthlySavings monthlyEquivalent gap growth years
   * annuityFactor (monthlyEquivalent growth) (years * 12) == gap)%Q.
Proof.
  intros Hg Hy Hgap. rewrite monthlySavings_gap by done.
  assert (F : (0 < annuityFactor (monthlyEquivalent growth) (years * 12))%Q)
    by (apply annuityFactor_pos; [auto | lia]).
  field. intros E. rewrite E in F. by apply Qlt_irrefl in F.
Qed.


(** C2. Every result of the engine is on track if and only if its wealth
    gap is at most 0, and with a wealth gap of at most 0 its required
    monthly savings are 0; valid inputs with a withdrawal rate other than 0
    have such a result. *)
Theorem on_track_iff_no_wealth_gap
    (i : AthleteFinancialInputs) (a : AssumptionSet) :
  (forall r, computeProjection monthlyEquivalent i a = inr r ->
     (isOnTrack r = true <-> (wealthGap r <= 0)%Q) /\
     ((wealthGap r <= 0)%Q -> requiredMonthlySavings r = 0%Q))
  /\ (validInputs i -> ~ (withdrawalRate a == 0)%Q ->
       exists r, computeProjection monthlyEquivalent i a = inr r).
Proof.
  split.
  - intros r H. apply computeProjection_result in H.
    destruct H as (_ & Ht & Hs). rewrite Ht, Hs. split.
    + apply Qle_bool_iff.
    + apply monthlySavings_no_gap.
  - intros Hv Hz. eexists. by apply computeProjection_valid.
Qed.

(** ** Scenario A *)

Lemma scenarioA_valid : validInputs scenarioA.
Proof. unfold validInputs, scenarioA. simpl. repeat split; try lia; done. Qed.

(** C3. For age 25, retirement age 40, wealth 100000, income 200000 and a
    monthly payout of 5000 under the default assumptions the engine returns
    15 years to retirement, an annual payout of 60000, a required corpus of
    1500000, a projected wealth of 100000 * 1.05^15 (207893 to the nearest
    unit), a wealth gap of 1292107 to the nearest unit, positive required
    monthly savings, and it is not on track. *)
Theorem scenario_A_projection :
  exists r,
    computeProjection monthlyEquivalent scenarioA defaultAssumptions = inr r /\
    yearsToRetirement r = 15 /\
    (annualPayoutRequired r == 60000)%Q /\
    (requiredCorpus r == 1500000)%Q /\
    (projectedWealthAtRetirement r == 100000 * (105 # 100) ^ 15)%Q /\
    (Qabs (projectedWealthAtRetirement r - 207893) < 1 # 2)%Q /\
    (Qabs (wealthGap r - 1292107) < 1 # 2)%Q /\
    (0 < requiredMonthlySavings r)%Q /\
    isOnTrack r = false.
Proof.
  eexists. split.
  { apply computeProjection_valid; [apply scenarioA_valid | done]. }
  cbv zeta.
  cbn [yearsToRetirement annualPayoutRequired requiredCorpus
       projectedWealthAtRetirement wealthGap requiredMonthlySavings isOnTrack].
  split; [reflexivity |].
  split; [vm_compute; reflexivity |].
  split; [vm_compute; reflexivity |].
  split; [vm_compute; reflexivity |].
  split; [vm_compute; reflexivity |].
  split; [vm_compute; reflexivity |].
  split; [| vm_compute; reflexivity].
  apply monthlySavings_pos; [vm_compute; discriminate | reflexivity |].
  vm_compute. reflexivity.
Qed.

(** ** Monotonicity in the monthly payout *)



(** The two labels of the advisor panel agree on every result: the badge
    reads on track exactly where the gap tile is captioned as a surplus. *)
Lemma advisor_badge_agrees_with_caption i a r :
  computeProjection monthlyEquivalent i a = inr r ->
  Advisor.statusBadge (isOnTrack r) = "✅ On Track!" <->
  Advisor.gapCaption (wealthGap r) = "Surplus".
Proof.
  intros H. apply computeProjection_result in H. destruct H as (_ & -> & _).
  unfold Advisor.statusBadge, Advisor.gapCaption, Js.Qltb.
  by destruct (Qle_bool (wealthGap r) 0).
Qed.

End MonthlyRate.

(** A request without overrides runs under the defaults. *)
Lemma resolve_without_overrides :
  resolve {| withdrawal_rate := None; growth_rate_pre_retirement := None;
             growth_rate_post_retirement := None; inflation_rate := None |}
  = defaultAssumptions.
Proof. reflexivity. Qed.

(** ** The theorems at the worked scenario *)

Lemma nominalMonthly_nonneg g : (0 <= g)%Q -> (0 <= nominalMonthly g)%Q.
Proof. intros H. unfold nominalMonthly. apply Qle_shift_div_l; [done | lra]. Qed.

Lemma corpus_is_annual_payout_over_withdrawal_rate_witness :
  validInputs scenarioA /\
  exists r,
    computeProjection nominalMonthly scenarioA defaultAssumptions = inr r /\
    (requiredCorpus r == annualPayoutRequired r / (4 # 100))%Q.
Proof.
  split; [exact scenarioA_valid |].
  destruct (corpus_is_annual_payout_over_withdrawal_rate
              nominalMonthly scenarioA defaultAssumptions scenarioA_valid)
    as [_ H].
  destruct H as (r & Hr & _ & Hc & _); [vm_compute; discriminate |].
  exists r. exact (conj Hr Hc).
Defined.

Lemma on_track_iff_no_wealth_gap_witness :
  validInputs scenarioA /\
  exists r, computeProjection nominalMonthly scenarioA defaultAssumptions = inr r /\
    (isOnTrack r = true <-> (wealthGap r <= 0)%Q).
Proof.
  split; [exact scenarioA_valid |].
  destruct (on_track_iff_no_wealth_gap nominalMonthly scenarioA defaultAssumptions)
    as [A E].
  destruct (E scenarioA_valid) as [r Hr]; [vm_compute; discriminate |].
  exists r. exact (conj Hr (proj1 (A r Hr))).
Defined.

Lemma scenario_A_projection_witness :
  exists r,
    computeProjection nominalMonthly scenarioA defaultAssumptions = inr r /\
    yearsToRetirement r = 15 /\ isOnTrack r = false /\
    (0 < requiredMonthlySavings r)%Q.
Proof.
  destruct (scenario_A_projection nominalMonthly nominalMonthly_nonneg)
    as (r & Hr & Hy & _ & _ & _ & _ & _ & Hs & Ht).
  exists r. exact (conj Hr (conj Hy (conj Ht Hs))).
Defined.



End EngineSpec.

(** * Further properties of the wizard *)

Module WizardMore.
Import Js Wizard WizardView WizardSpec.

(** ** The income and the payout step *)

(** What the steps of the two amounts test: present and above 0. *)
Lemma amount_test (x : option Q) :
  notQ x || Qltb (toNumberQ x) 0 = false <-> exists q, x = Some q /\ (0 < q)%Q.
Proof.
  unfold notQ, toNumberQ. destruct x as [p|]; simpl.
  - rewrite orb_false_iff, Qltb_ge, <- not_true_iff_false, Qeq_bool_iff. split.
    + intros [Hne Hle]. exists p. split; [done |].
      apply Qle_lt_or_eq in Hle. destruct Hle as [? | E]; [done |].
      destruct Hne. by symmetry.
    + intros (q & [= <-] & Hlt). split; [| by apply Qlt_le_weak].
      intros E. rewrite E in Hlt. by apply Qlt_irrefl in Hlt.
  - split; [done | intros (q & ? & _); done].
Qed.

(** X1. The validation of the income step accepts exactly a present income
    above 0; a missing, zero or negative income is rejected with the error
    of the [currentIncome] field. *)
Theorem income_step_accepts_exactly_positive (d : QuestionnaireData) :
  (snd (validateStep 1 d) = true <->
     exists i, currentIncome d = Some i /\ (0 < i)%Q)
  /\ (snd (validateStep 1 d) = false ->
       fst (validateStep 1 d) = <["currentIncome" := incomeError]> ∅).
Proof.
  rewrite validateStep_income. cbv zeta. cbn [fst snd]. split.
  - rewrite negb_true_iff. apply amount_test.
  - intros H. apply negb_false_iff in H. by rewrite H.
Qed.

(** X2. The validation of the payout step accepts exactly a present monthly
    payout above 0; a missing, zero or negative payout is rejected with the
    error of the [monthlyPayoutRequired] field. *)
Theorem payout_step_accepts_exactly_positive (d : QuestionnaireData) :
  (snd (validateStep 4 d) = true <->
     exists p, monthlyPayoutRequired d = Some p /\ (0 < p)%Q)
  /\ (snd (validateStep 4 d) = false ->
       fst (validateStep 4 d)
       = <["monthlyPayoutRequired" := payoutError]> ∅).
Proof.
  rewrite validateStep_payout. cbv zeta. cbn [fst snd]. split.
  - rewrite negb_true_iff. apply amount_test.
  - intros H. apply negb_false_iff in H. by rewrite H.
Qed.

(** ** What the handlers leave alone *)

Lemma handleNext_data w : data (handleNext w) = data w.
Proof.
  unfold handleNext. destruct (validateStep _ _) as [e ok].
  destruct ok; [| done]. cbn [setErrors currentStep].
  by destruct (currentStep w <? lastStep).
Qed.

Lemma handleNext_sent w : sent (handleNext w) = sent w.
Proof.
  unfold handleNext. destruct (validateStep _ _) as [e ok].
  destruct ok; [| done]. cbn [setErrors currentStep].
  by destruct (currentStep w <? lastStep).
Qed.

Lemma handleSubmit_data w : data (handleSubmit w) = data w.
Proof.
  unfold handleSubmit. destruct (validateStep _ _) as [e ok]. by destruct ok.
Qed.

Lemma handlePrevious_data w : data (handlePrevious w) = data w.
Proof. unfold handlePrevious. by destruct (currentStep w >? 0). Qed.

Lemma handlePrevious_sent w : sent (handlePrevious w) = sent w.
Proof. unfold handlePrevious. by destruct (currentStep w >? 0). Qed.

Lemma handleSubmit_sent w :
  sent (handleSubmit w) =
  if snd (validateStep (currentStep w) (data w))
  then sent w ++ [requestBody (data w)] else sent w.
Proof.
  unfold handleSubmit. destruct (validateStep _ _) as [e ok]. by destruct ok.
Qed.

Lemma handleKeyPress_data k w : data (handleKeyPress k w) = data w.
Proof.
  unfold handleKeyPress. destruct (String.eqb k "Enter"); [| done].
  destruct (currentStep w <? lastStep);
    [apply handleNext_data | apply handleSubmit_data].
Qed.

(** X3. Whatever the state and the event, the requests posted so far stay
    as they are and at most one is added: the body built from the current
    data, and only by the submit button or by the Enter key from the last
    step on, when the validation of the current step passes.  Next,
    previous and the inputs never post. *)
Theorem only_submit_posts (w : State) (e : event) :
  sent (step w e) = sent w \/
  (sent (step w e) = sent w ++ [requestBody (data w)] /\
   snd (validateStep (currentStep w) (data w)) = true /\
   (e = ClickSubmit \/ (e = KeyPress "Enter" /\ lastStep <= currentStep w))).
Proof.
  destruct e; cbn [step]; try (by left).
  - left. apply handleNext_sent.
  - left. apply handlePrevious_sent.
  - rewrite handleSubmit_sent.
    destruct (snd (validateStep _ _)) eqn:V; [right | by left]. by auto.
  - unfold handleKeyPress. destruct (String.eqb_spec key "Enter") as [-> | _];
      [| by left].
    destruct (Z.ltb_spec (currentStep w) lastStep); [left; apply handleNext_sent |].
    rewrite handleSubmit_sent.
    destruct (snd (validateStep _ _)) eqn:V; [right | by left]. by auto.
Qed.

(** ** What the inputs store *)

Lemma orNullZ_nonzero p n : orNullZ p = Some n -> n <> 0.
Proof.
  unfold orNullZ, notZ, toNumberZ. destruct p as [m|]; simpl; [| done].
  destruct (Z.eqb_spec m 0); [done | congruence].
Qed.

Lemma orNullQ_nonzero p q : orNullQ p = Some q -> ~ (q == 0)%Q.
Proof.
  unfold orNullQ, notQ, toNumberQ. destruct p as [m|]; simpl; [| done].
  destruct (Qeq_bool m 0) eqn:E; [done |]. intros [= <-] H.
  apply Qeq_bool_iff in H. congruence.
Qed.

Lemma step_neverZero w e : neverZero (data w) -> neverZero (data (step w e)).
Proof.
  intros (Za & Zi & Zw & Zr & Zp). destruct e; cbn [step].
  - repeat split; try done. cbn. apply orNullZ_nonzero.
  - repeat split; try done. cbn. apply orNullQ_nonzero.
  - repeat split; try done. cbn. apply orNullQ_nonzero.
  - repeat split; try done. cbn. apply orNullZ_nonzero.
  - repeat split; try done. cbn. apply orNullQ_nonzero.
  - by rewrite handleNext_data.
  - by rewrite handlePrevious_data.
  - by rewrite handleSubmit_data.
  - by rewrite handleKeyPress_data.
Qed.

Lemma initial_neverZero : neverZero (data initial).
Proof. repeat split; done. Qed.

Lemma reachable_neverZero w : reachable w -> neverZero (data w).
Proof.
  induction 1 as [| w e _ IH _]; [apply initial_neverZero |].
  by apply step_neverZero.
Qed.

(** ** What a session posts *)

Lemma orQ_positive q : (0 < q)%Q -> orQ (Some q) 0 = q.
Proof.
  intros H. unfold orQ, notQ, toNumberQ. simpl.
  destruct (Qeq_bool q 0) eqn:E; [| done].
  apply Qeq_bool_iff in E. rewrite E in H. by apply Qlt_irrefl in H.
Qed.

Lemma submit_complete w :
  reachable w -> currentStep w = 4 ->
  snd (validateStep 4 (data w)) = true ->
  completeBody (requestBody (data w)).
Proof.
  intros Hw H4 V4.
  pose proof (reachable_neverZero w Hw) as (_ & _ & Zw & _).
  apply reachable_invariant in Hw as (_ & (P0 & P1 & P2 & P3) & _).
  apply age_accepted in P0; [| lia]. destruct P0 as (a & Ha & Hrange).
  specialize (P1 ltac:(lia)). rewrite validateStep_income in P1.
  cbv zeta in P1. cbn [snd] in P1. apply negb_true_iff, amount_test in P1.
  destruct P1 as (i & Hi & Hipos).
  specialize (P2 ltac:(lia)). rewrite validateStep_wealth in P2.
  cbv zeta in P2. cbn [snd] in P2. apply negb_true_iff, wealth_test in P2.
  destruct P2 as (v & Hv & Hvle).
  apply retirement_accepted in P3; [| lia]. destruct P3 as (r & Hr & _ & Hlt).
  rewrite Ha in Hlt.
  apply payout_accepted in V4. destruct V4 as (p & Hp & Hppos).
  assert (Hvpos : (0 < v)%Q).
  { apply Qle_lt_or_eq in Hvle. destruct Hvle as [? | E]; [done |].
    destruct (Zw v Hv). by symmetry. }
  exists a, r, i, p. unfold requestBody.
  cbn [body_age body_retirement_age body_current_income body_current_wealth
       body_monthly_payout_required].
  rewrite Hv, orQ_positive by done.
  repeat (split; [assumption |]). assumption.
Qed.

(** X4. Every request a session of the page posts is complete: an age
    between 18 and 100, a retirement age above it, an income above 0, a
    wealth above 0 and a monthly payout above 0.  (The wealth is above 0,
    not only at least 0, because the wealth input stores a typed 0 as
    [null].) *)
Theorem session_posts_complete_requests (w : State) :
  reachable w -> Forall completeBody (sent w).
Proof.
  induction 1 as [| w e Hw IH Hen]; [constructor |].
  pose proof (reachable_invariant w Hw) as (Hrange & _).
  assert (S4 : lastStep <= currentStep w ->
               Forall completeBody (sent (handleSubmit w))).
  { rewrite lastStep_is_4. intros Hge. assert (H4 : currentStep w = 4) by lia.
    rewrite handleSubmit_sent, H4.
    destruct (snd (validateStep 4 (data w))) eqn:V; [| done].
    apply Forall_app. split; [done |]. constructor; [| constructor].
    by apply submit_complete. }
  destruct e; cbn [step enabled] in *; try done.
  - by rewrite handleNext_sent.
  - by rewrite handlePrevious_sent.
  - apply S4. apply negb_true_iff, Z.ltb_ge in Hen. done.
  - unfold handleKeyPress. destruct (String.eqb key "Enter"); [| done].
    destruct (Z.ltb_spec (currentStep w) lastStep);
      [by rewrite handleNext_sent | by apply S4].
Qed.

(** X5. At the wealth step, an input that parses to 0 or to no number at
    all is stored as [null], and the next button then keeps the wizard at
    the wealth step with the error of the [currentWealth] field and posts
    nothing: through the page a wealth of 0 cannot be entered. *)
Theorem zero_wealth_cannot_be_entered (w : State) (p : option Q) :
  currentStep w = 2 ->
  (p = None \/ exists q, p = Some q /\ (q == 0)%Q) ->
  let w' := step (step w (ChangeWealth p)) ClickNext in
  currentWealth (data w') = None /\
  currentStep w' = 2 /\
  errors w' = <["currentWealth" := wealthError]> ∅ /\
  sent w' = sent w.
Proof.
  intros H2 Hp. cbn [step].
  assert (N : orNullQ p = None).
  { unfold orNullQ, notQ, toNumberQ. destruct Hp as [-> | (q & -> & E)]; [done |].
    simpl. apply Qeq_bool_iff in E. by rewrite E. }
  set (w1 := onDataUpdate (changeWealth p (data w)) w).
  assert (D : currentWealth (data w1) = None) by exact N.
  assert (F : snd (validateStep (currentStep w1) (data w1)) = false).
  { change (currentStep w1) with (currentStep w). rewrite H2.
    rewrite validateStep_wealth. cbv zeta. cbn [snd]. by rewrite D. }
  rewrite (handleNext_rejected w1 F).
  cbn [data currentStep errors sent setErrors].
  split; [done |]. split; [done |]. split; [| done].
  change (currentStep w1) with (currentStep w). rewrite H2.
  rewrite validateStep_wealth. cbv zeta. cbn [fst]. by rewrite D.
Qed.

(** ** Going back and forth *)

Lemma accepted_no_error s d :
  snd (validateStep s d) = true -> fst (validateStep s d) = ∅.
Proof.
  unfold validateStep. cbn [fst snd]. intros H. apply Nat.eqb_eq in H.
  by apply map_size_empty_iff.
Qed.

Lemma handleNext_accepted w :
  snd (validateStep (currentStep w) (data w)) = true ->
  currentStep w < 4 ->
  handleNext w =
  {| data := data w; currentStep := currentStep w + 1; errors := ∅;
     sent := sent w |}.
Proof.
  intros V Hlt. pose proof (accepted_no_error _ _ V) as E.
  unfold handleNext. destruct (validateStep _ _) as [e ok].
  cbn [fst snd] in *. subst. cbn [setErrors currentStep]. rewrite lastStep_is_4.
  by destruct (Z.ltb_spec (currentStep w) 4); [| lia].
Qed.

(** X6. In a session of the page, previous followed by next comes back to
    the same step with the same data and the same requests, and with no
    error on display: the step gone back to still accepts the data. *)
Theorem previous_then_next_returns (w : State) :
  reachable w -> 0 < currentStep w ->
  handleNext (handlePrevious w) =
  {| data := data w; currentStep := currentStep w; errors := ∅;
     sent := sent w |}.
Proof.
  intros Hw Hpos.
  apply reachable_invariant in Hw as (Hrange & (P0 & P1 & P2 & P3) & _).
  unfold handlePrevious. rewrite Z.gtb_ltb.
  destruct (Z.ltb_spec 0 (currentStep w)); [| lia].
  set (w1 := setErrors ∅ (onStepChange (currentStep w - 1) w)).
  assert (V : snd (validateStep (currentStep w1) (data w1)) = true).
  { change (currentStep w1) with (currentStep w - 1).
    change (data w1) with (data w).
    assert (C : currentStep w = 1 \/ currentStep w = 2 \/ currentStep w = 3 \/
                currentStep w = 4) by lia.
    destruct C as [C | [C | [C | C]]]; rewrite C; cbn [Z.sub Z.add Z.opp Z.pos_sub];
      auto with lia. }
  rewrite (handleNext_accepted w1 V);
    [| change (currentStep w1) with (currentStep w - 1); lia].
  change (currentStep w1) with (currentStep w - 1).
  change (data w1) with (data w). change (sent w1) with (sent w).
  f_equal. lia.
Qed.

(** ** The error on display *)

Lemma newErrors_size s d : (size (newErrors s d) <= 1)%nat.
Proof.
  assert (B : forall (b : bool) (k v : string),
            (size (if b then <[k := v]> ∅ else ∅ : gmap string string) <= 1)%nat).
  { intros [] k v; [| by rewrite map_size_empty; lia].
    rewrite map_size_insert_None by apply lookup_empty.
    rewrite map_size_empty. lia. }
  assert (Z0 : (size (∅ : gmap string string) <= 1)%nat)
    by (rewrite map_size_empty; lia).
  unfold newErrors. destruct s as [|q|q]; [apply B | | exact Z0].
  destruct q as [[[]|[]|]|[[]|[]|]|]; first [apply B | exact Z0].
Qed.

Lemma validated_shownError w :
  shownError (setErrors (fst (validateStep (currentStep w) (data w))) w).
Proof.
  unfold shownError. cbn [setErrors errors currentStep validateStep fst].
  pose proof (newErrors_size (currentStep w) (data w)) as Hs.
  destruct (decide (size (newErrors (currentStep w) (data w)) = 0%nat)) as [E | N].
  - left. by apply map_size_empty_iff.
  - right. exists (data w). split; [done | lia].
Qed.

Lemma step_shownError w e : shownError w -> shownError (step w e).
Proof.
  intros Hw.
  assert (N : shownError (handleNext w)).
  { destruct (snd (validateStep (currentStep w) (data w))) eqn:V.
    - unfold handleNext. pose proof (accepted_no_error _ _ V) as E.
      destruct (validateStep _ _) as [e' ok]. cbn [fst snd] in *. subst.
      cbn [setErrors currentStep].
      destruct (currentStep w <? lastStep); by left.
    - rewrite (handleNext_rejected w V). apply validated_shownError. }
  assert (S : shownError (handleSubmit w)).
  { destruct (snd (validateStep (currentStep w) (data w))) eqn:V.
    - rewrite (handleSubmit_accepted w V).
      rewrite (accepted_no_error _ _ V). by left.
    - rewrite (handleSubmit_rejected w V). apply validated_shownError. }
  destruct e; cbn [step]; try done.
  - unfold handlePrevious. destruct (currentStep w >? 0); [by left | done].
  - unfold handleKeyPress. destruct (String.eqb key "Enter"); [| done].
    by destruct (currentStep w <? lastStep).
Qed.

(** X7. After any sequence of events the wizard holds no error or exactly
    one, and that one is an error which the validation of the step now on
    display records: an error of another step is never kept. *)
Theorem error_belongs_to_the_current_step (evs : list event) :
  shownError (run evs initial)
  /\ (size (errors (run evs initial)) <= 1)%nat.
Proof.
  assert (H : forall w, shownError w -> shownError (run evs w)).
  { induction evs as [|e evs IH]; intros w Hw; [done |].
    apply IH. by apply step_shownError. }
  assert (I : shownError (run evs initial)) by (apply H; by left).
  split; [done |]. destruct I as [-> | (d & _ & ->)]; [| lia].
  rewrite map_size_empty. lia.
Qed.

(** ** The header and the summary *)

(** X8. After any sequence of events the header of the wizard can be
    drawn: [steps[currentStep]] is an entry of the array, and the header
    reads step [n] of 5 with [n] between 1 and 5. *)
Theorem header_is_always_defined (evs : list event) :
  exists h, header (currentStep (run evs initial)) = Some h /\
    h_total h = 5 /\ 1 <= h_number h <= 5 /\
    h_number h = currentStep (run evs initial) + 1.
Proof.
  pose proof (run_in_range evs initial ltac:(done)) as R.
  set (s := currentStep (run evs initial)) in *.
  assert (C : s = 0 \/ s = 1 \/ s = 2 \/ s = 3 \/ s = 4) by lia.
  destruct C as [-> | [-> | [-> | [-> | ->]]]];
    (eexists; split; [reflexivity |]; cbn; lia).
Qed.

(** Rounding to a double keeps an integer that is at least 1 at least 1,
    and changes nothing up to 2^53. *)
Lemma roundToDouble_small z : Z.abs z <= 2 ^ 53 -> roundToDouble z = z.
Proof.
  intros H. unfold roundToDouble.
  by destruct (Z.leb_spec (Z.abs z) (2 ^ 53)); [| lia].
Qed.

Lemma roundToDouble_positive z : 1 <= z -> 1 <= roundToDouble z.
Proof.
  intros H. unfold roundToDouble.
  destruct (Z.leb_spec (Z.abs z) (2 ^ 53)) as [_ | Hbig]; [done |].
  rewrite Z.abs_eq in * by lia. rewrite Z.sgn_pos by lia.
  set (e := Z.log2 z - 52).
  assert (L : 53 <= Z.log2 z).
  { apply Z.log2_le_pow2; [lia |]. lia. }
  assert (He : 0 <= e) by (unfold e; lia).
  assert (P : 0 < 2 ^ e) by (apply Z.pow_pos_nonneg; lia).
  assert (Q : 1 <= z / 2 ^ e).
  { apply Z.div_le_lower_bound; [done |].
    destruct (Z.log2_spec z ltac:(lia)) as [Hlow _].
    assert (2 ^ e <= 2 ^ Z.log2 z) by (apply Z.pow_le_mono_r; unfold e; lia).
    lia. }
  assert (Q' : 1 <= (if z mod 2 ^ e <? 2 ^ (e - 1) then z / 2 ^ e
                     else if 2 ^ (e - 1) <? z mod 2 ^ e then z / 2 ^ e + 1
                     else if Z.even (z / 2 ^ e) then z / 2 ^ e
                     else z / 2 ^ e + 1)).
  { destruct (_ <? _); [done |]. destruct (_ <? _); [lia |].
    destruct (Z.even _); lia. }
  nia.
Qed.

Lemma andZ_element {A} x (k : rendered A) :
  (forall n, x = Some n -> n <> 0) ->
  andZ x k = match x with None => Nothing | Some _ => k end.
Proof.
  intros H. unfold andZ. destruct x as [n|]; [| done].
  destruct (Z.eqb_spec n 0); [| done]. by destruct (H n).
Qed.

Lemma andQ_element {A} x (k : rendered A) :
  (forall q, x = Some q -> ~ (q == 0)%Q) ->
  andQ x k = match x with None => Nothing | Some _ => k end.
Proof.
  intros H. unfold andQ. destruct x as [q|]; [| done].
  destruct (Qeq_bool q 0) eqn:E; [| done].
  apply Qeq_bool_iff in E. by destruct (H q).
Qed.

(** X9. In a session of the page the summary never degenerates into the
    text 0; at the last step it is absent as long as no payout is entered,
    and with a payout it shows an age between 18 and 100, a retirement age
    above it, at least one year to save and the payout entered. *)
Theorem summary_of_a_session (w : State) :
  reachable w ->
  summaryAt w <> ZeroText
  /\ (currentStep w = 4 ->
      (monthlyPayoutRequired (data w) = None -> summaryAt w = Nothing) /\
      (forall p, monthlyPayoutRequired (data w) = Some p ->
         exists sm, summaryAt w = Element sm /\
           18 <= summaryAge sm <= 100 /\
           summaryAge sm < summaryRetirementAge sm /\
           1 <= yearsToSave sm /\
           monthlyNeeds sm = p)).
Proof.
  intros Hw.
  pose proof (reachable_neverZero w Hw) as (Za & Zi & Zw & Zr & Zp).
  assert (E : summary (data w) =
              match age (data w), currentIncome (data w),
                    retirementAge (data w), monthlyPayoutRequired (data w) with
              | Some a, Some _, Some r, Some p =>
                  Element {| summaryAge := a; summaryRetirementAge := r;
                             yearsToSave := subZ r a; monthlyNeeds := p |}
              | _, _, _, _ => Nothing
              end).
  { unfold summary.
    rewrite (andZ_element (age (data w))) by done.
    destruct (age (data w)) as [a|]; [| done].
    rewrite (andQ_element (currentIncome (data w))) by done.
    destruct (currentIncome (data w)) as [i|]; [| done].
    rewrite (andZ_element (retirementAge (data w))) by done.
    destruct (retirementAge (data w)) as [r|]; [| done].
    rewrite (andQ_element (monthlyPayoutRequired (data w))) by done.
    by destruct (monthlyPayoutRequired (data w)). }
  split.
  - unfold summaryAt. destruct (currentStep w =? 4); [| done]. rewrite E.
    destruct (age (data w)), (currentIncome (data w)), (retirementAge (data w)),
      (monthlyPayoutRequired (data w)); done.
  - intros H4. unfold summaryAt. rewrite H4. cbn [Z.eqb Pos.eqb]. rewrite E.
    apply reachable_invariant in Hw as (_ & (P0 & P1 & _ & P3) & _).
    apply age_accepted in P0; [| lia]. destruct P0 as (a & Ha & Hrange).
    specialize (P1 ltac:(lia)). rewrite validateStep_income in P1.
    cbv zeta in P1. cbn [snd] in P1. apply negb_true_iff, amount_test in P1.
    destruct P1 as (i & Hi & _).
    apply retirement_accepted in P3; [| lia]. destruct P3 as (r & Hr & _ & Hlt).
    rewrite Ha in Hlt. rewrite Ha, Hi, Hr. split.
    + by intros ->.
    + intros p ->. eexists. split; [reflexivity |].
      cbn [summaryAge summaryRetirementAge yearsToSave monthlyNeeds].
      split; [lia |]. split; [lia |]. split; [| reflexivity].
      apply roundToDouble_positive. lia.
Qed.

(** X10. In a session of the page every step before the current one
    accepts the data as they are now: a step is only ever reached with all
    earlier steps passing, whatever was edited on the way back and forth. *)
Theorem earlier_steps_accept_the_data (w : State) (s : Z) :
  reachable w -> 0 <= s < currentStep w ->
  snd (validateStep s (data w)) = true /\ fst (validateStep s (data w)) = ∅.
Proof.
  intros Hw Hs.
  apply reachable_invariant in Hw as (Hrange & (P0 & P1 & P2 & P3) & _).
  assert (V : snd (validateStep s (data w)) = true).
  { assert (C : s = 0 \/ s = 1 \/ s = 2 \/ s = 3) by lia.
    destruct C as [-> | [-> | [-> | ->]]]; auto with lia. }
  split; [done | by apply accepted_no_error].
Qed.

(** ** Sessions by lists of events *)

Lemma reachable_run evs : forall w,
  reachable w -> allEnabled evs w = true -> reachable (run evs w).
Proof.
  induction evs as [|e evs IH]; intros w Hw Hen; [done |].
  cbn [allEnabled] in Hen. apply andb_true_iff in Hen as [He Hrest].
  apply IH; [by constructor | done].
Qed.

Lemma scenarioSession_reachable n :
  reachable (run (firstn n scenarioSession) initial).
Proof.
  apply reachable_run; [constructor |].
  do 11 (destruct n as [|n]; [vm_compute; reflexivity |]).
  vm_compute; reflexivity.
Qed.

(** ** The theorems at concrete states *)

Lemma income_step_accepts_exactly_positive_witness :
  snd (validateStep 1 retireBeforeAge) = true /\
  fst (validateStep 1 initialData) = <["currentIncome" := incomeError]> ∅.
Proof.
  destruct (income_step_accepts_exactly_positive retireBeforeAge) as [[_ H] _].
  destruct (income_step_accepts_exactly_positive initialData) as [_ H'].
  split.
  - apply H. exists 150000%Q. split; reflexivity.
  - apply H'. reflexivity.
Defined.

Lemma payout_step_accepts_exactly_positive_witness :
  snd (validateStep 4 retireBeforeAge) = true /\
  fst (validateStep 4 initialData)
  = <["monthlyPayoutRequired" := payoutError]> ∅.
Proof.
  destruct (payout_step_accepts_exactly_positive retireBeforeAge) as [[_ H] _].
  destruct (payout_step_accepts_exactly_positive initialData) as [_ H'].
  split.
  - apply H. exists 4000%Q. split; reflexivity.
  - apply H'. reflexivity.
Defined.

Lemma session_posts_complete_requests_witness :
  reachable (run scenarioSession initial) /\
  length (sent (run scenarioSession initial)) = 1%nat /\
  Forall completeBody (sent (run scenarioSession initial)).
Proof.
  pose proof (scenarioSession_reachable 10) as R.
  change (firstn 10 scenarioSession) with scenarioSession in R.
  split; [exact R |]. split; [vm_compute; reflexivity |].
  exact (session_posts_complete_requests _ R).
Defined.

Lemma zero_wealth_cannot_be_entered_witness :
  currentStep (run (firstn 4 scenarioSession) initial) = 2 /\
  currentStep (step (step (run (firstn 4 scenarioSession) initial)
                       (ChangeWealth (Some 0%Q))) ClickNext) = 2.
Proof.
  assert (H2 : currentStep (run (firstn 4 scenarioSession) initial) = 2)
    by (vm_compute; reflexivity).
  split; [exact H2 |].
  refine (proj1 (proj2 (zero_wealth_cannot_be_entered _ (Some 0%Q) H2 _))).
  right. exists 0%Q. split; reflexivity.
Defined.

Lemma previous_then_next_returns_witness :
  reachable (run (firstn 8 scenarioSession) initial) /\
  0 < currentStep (run (firstn 8 scenarioSession) initial) /\
  currentStep (handleNext (handlePrevious (run (firstn 8 scenarioSession) initial)))
  = 4.
Proof.
  pose proof (scenarioSession_reachable 8) as R.
  assert (P : 0 < currentStep (run (firstn 8 scenarioSession) initial))
    by (vm_compute; reflexivity).
  split; [exact R |]. split; [exact P |].
  rewrite (previous_then_next_returns _ R P). vm_compute; reflexivity.
Defined.

Lemma summary_of_a_session_witness :
  reachable (run (firstn 9 scenarioSession) initial) /\
  currentStep (run (firstn 9 scenarioSession) initial) = 4 /\
  exists sm, summaryAt (run (firstn 9 scenarioSession) initial) = Element sm /\
    1 <= yearsToSave sm.
Proof.
  pose proof (scenarioSession_reachable 9) as R.
  assert (H4 : currentStep (run (firstn 9 scenarioSession) initial) = 4)
    by (vm_compute; reflexivity).
  split; [exact R |]. split; [exact H4 |].
  destruct (summary_of_a_session _ R) as [_ H].
  destruct (H H4) as [_ H'].
  destruct (H' 5000%Q) as (sm & Hsm & _ & _ & Hy & _); [vm_compute; reflexivity |].
  exists sm. exact (conj Hsm Hy).
Defined.

Lemma earlier_steps_accept_the_data_witness :
  reachable (run (firstn 8 scenarioSession) initial) /\
  0 <= 3 < currentStep (run (firstn 8 scenarioSession) initial) /\
  snd (validateStep 3 (data (run (firstn 8 scenarioSession) initial))) = true.
Proof.
  pose proof (scenarioSession_reachable 8) as R.
  assert (H : 0 <= 3 < currentStep (run (firstn 8 scenarioSession) initial))
    by (vm_compute; split; [discriminate | reflexivity]).
  split; [exact R |]. split; [exact H |].
  exact (proj1 (earlier_steps_accept_the_data _ 3 R H)).
Defined.

End WizardMore.

(** * Properties of the advisor panel *)

Module AdvisorMore.
Import AdvisorPanel.

Lemma currentMessages_length s :
  0 <= s <= 4 -> length (currentMessages s) = 3%nat.
Proof.
  intros H. assert (C : s = 0 \/ s = 1 \/ s = 2 \/ s = 3 \/ s = 4) by lia.
  destruct C as [-> | [-> | [-> | [-> | ->]]]]; reflexivity.
Qed.

Lemma currentMessage_scripted s i :
  0 <= s <= 4 -> (i < 3)%nat ->
  currentMessage s i ∈ currentMessages s /\ currentMessage s i <> "".
Proof.
  intros H Hi. assert (C : s = 0 \/ s = 1 \/ s = 2 \/ s = 3 \/ s = 4) by lia.
  destruct C as [-> | [-> | [-> | [-> | ->]]]];
    (destruct i as [|[|[|i]]]; [| | | lia]);
    (split; [cbv; repeat constructor | cbv; discriminate]).
Qed.

Lemma handleNextMessage_step p : panelStep (handleNextMessage p) = panelStep p.
Proof. unfold handleNextMessage. by destruct (_ <? _). Qed.

Lemma handleNextMessage_index p :
  0 <= panelStep p <= 4 -> (currentMessageIndex p < 3)%nat ->
  (currentMessageIndex (handleNextMessage p) < 3)%nat.
Proof.
  intros Hs Hi. unfold handleNextMessage. rewrite currentMessages_length by done.
  destruct (Z.ltb_spec (Z.of_nat (currentMessageIndex p)) (Z.of_nat 3 - 1));
    cbn [currentMessageIndex]; lia.
Qed.

Lemma runPanel_in_range evs : forall p,
  stepsInRange evs ->
  0 <= panelStep p <= 4 -> (currentMessageIndex p < 3)%nat ->
  0 <= panelStep (runPanel evs p) <= 4 /\
  (currentMessageIndex (runPanel evs p) < 3)%nat.
Proof.
  induction evs as [|e evs IH]; intros p Hev Hs Hi; [done |].
  apply Forall_cons in Hev as [He Hev]. cbn [runPanel fold_left].
  apply IH; [done | |]; destruct e as [s|]; cbn [panelStepOn].
  - unfold receiveStep. by destruct (s =? panelStep p).
  - by rewrite handleNextMessage_step.
  - unfold receiveStep. destruct (s =? panelStep p); [done | cbn; lia].
  - by apply handleNextMessage_index.
Qed.

(** X11. Whatever steps between 0 and 4 the wizard passes down and however
    often the reader asks for more tips, the index stays below 3 and the
    advisor has a message to type: the current message is one of the three
    scripted for the step and is not empty, also in the render with a new
    step that precedes the reset of the index. *)
Theorem advisor_always_has_a_message (evs : list panelEvent) :
  stepsInRange evs ->
  0 <= panelStep (runPanel evs initialPanel) <= 4 /\
  (currentMessageIndex (runPanel evs initialPanel) < 3)%nat /\
  (forall s, 0 <= s <= 4 ->
     currentMessage s (currentMessageIndex (runPanel evs initialPanel))
       ∈ currentMessages s /\
     currentMessage s (currentMessageIndex (runPanel evs initialPanel)) <> "").
Proof.
  intros Hev.
  destruct (runPanel_in_range evs initialPanel Hev) as [Hs Hi];
    [cbn; lia | cbn; lia |].
  split; [done |]. split; [done |]. intros s H. by apply currentMessage_scripted.
Qed.

(** One press moves the index on by one, around the messages of the step. *)
Lemma handleNextMessage_mod p :
  (currentMessageIndex p < length (currentMessages (panelStep p)))%nat ->
  handleNextMessage p =
  {| panelStep := panelStep p;
     currentMessageIndex :=
       (currentMessageIndex p + 1) mod length (currentMessages (panelStep p)) |}.
Proof.
  intros H. unfold handleNextMessage.
  set (k := length (currentMessages (panelStep p))) in *.
  destruct (Z.ltb_spec (Z.of_nat (currentMessageIndex p)) (Z.of_nat k - 1)).
  - f_equal. symmetry. apply Nat.mod_small. lia.
  - f_equal. assert (E : (currentMessageIndex p + 1 = k)%nat) by lia.
    rewrite E. symmetry. apply Nat.Div0.mod_same.
Qed.

(** X12. Asking for the next message [n] times moves the index [n] places
    on around the messages of the step; as many presses as there are
    messages come back to the message they started from. *)
Theorem next_message_goes_round (p : Panel) :
  (currentMessageIndex p < length (currentMessages (panelStep p)))%nat ->
  (forall n, Nat.iter n handleNextMessage p =
     {| panelStep := panelStep p;
        currentMessageIndex :=
          (currentMessageIndex p + n) mod length (currentMessages (panelStep p)) |})
  /\ Nat.iter (length (currentMessages (panelStep p))) handleNextMessage p = p.
Proof.
  intros H. set (k := length (currentMessages (panelStep p))) in *.
  assert (A : forall n, Nat.iter n handleNextMessage p =
     {| panelStep := panelStep p;
        currentMessageIndex := (currentMessageIndex p + n) mod k |}).
  { induction n as [|n IH].
    - rewrite Nat.add_0_r, Nat.mod_small by done. by destruct p.
    - rewrite Nat.iter_succ, IH, handleNextMessage_mod;
        cbn [panelStep currentMessageIndex]; fold k.
      + f_equal. rewrite Nat.Div0.add_mod_idemp_l. f_equal. lia.
      + apply Nat.mod_upper_bound. lia. }
  split; [exact A |]. rewrite A.
  replace ((currentMessageIndex p + k) mod k)%nat with (currentMessageIndex p);
    [by destruct p |].
  rewrite <- Nat.Div0.add_mod_idemp_r, Nat.Div0.mod_same, Nat.add_0_r.
  symmetry. by apply Nat.mod_small.
Qed.

Lemma next_message_goes_round_witness :
  (currentMessageIndex initialPanel
   < length (currentMessages (panelStep initialPanel)))%nat /\
  Nat.iter 3 handleNextMessage initialPanel = initialPanel.
Proof.
  assert (H : (currentMessageIndex initialPanel
               < length (currentMessages (panelStep initialPanel)))%nat)
    by (vm_compute; lia).
  split; [exact H |].
  exact (proj2 (next_message_goes_round initialPanel H)).
Defined.

Lemma advisor_always_has_a_message_witness :
  stepsInRange [NextMessage; StepChanged 1; NextMessage; NextMessage; StepChanged 2] /\
  currentMessage 2
    (currentMessageIndex
       (runPanel [NextMessage; StepChanged 1; NextMessage; NextMessage;
                  StepChanged 2] initialPanel)) <> "".
Proof.
  assert (H : stepsInRange
                [NextMessage; StepChanged 1; NextMessage; NextMessage;
                 StepChanged 2]).
  { repeat constructor; lia. }
  split; [exact H |].
  destruct (advisor_always_has_a_message _ H) as (_ & _ & M).
  apply M. lia.
Defined.

(** ** The typing animation *)

Section Typing.

Context {codeUnit : Type}.

Lemma ticks_state (message : list codeUnit) n :
  message <> [] ->
  ticks message n =
  {| index := Nat.min n (length message);
     displayedText := take n message;
     isTyping := (n <=? length message)%nat;
     ticking := (n <=? length message)%nat |}.
Proof.
  intros Hne. unfold ticks. induction n as [|n IH].
  - by destruct message.
  - rewrite Nat.iter_succ, IH. unfold tick. cbn [ticking index isTyping displayedText].
    destruct (Nat.leb_spec n (length message)) as [Hle | Hgt].
    + rewrite Nat.min_l by done.
      destruct (Nat.ltb_spec n (length message)) as [Hlt | Hge].
      * rewrite Nat.add_1_r, Nat.min_l by lia.
        by destruct (Nat.leb_spec (S n) (length message)); [| lia].
      * rewrite Nat.min_r by lia.
        destruct (Nat.leb_spec (S n) (length message)); [lia |].
        f_equal; [lia |]. by rewrite !take_ge by lia.
    + rewrite !Nat.min_r by lia.
      destruct (Nat.leb_spec (S n) (length message)); [lia |].
      f_equal. by rewrite !take_ge by lia.
Qed.

(** X13. After [n] firings of the interval the advisor shows the first [n]
    code units of the message, the whole message from [n = length] on; it
    counts as typing up to and including the firing that completes the
    text and stops at the next one.  An empty message is not typed at
    all. *)
Theorem typing_shows_a_growing_prefix (message : list codeUnit) (n : nat) :
  displayedText (ticks message n) = take n message
  /\ isTyping (ticks message n)
     = match message with
       | [] => false
       | _ :: _ => (n <=? length message)%nat
       end
  /\ ((length message < n)%nat ->
      displayedText (ticks message n) = message /\
      ticks message (S n) = ticks message n).
Proof.
  destruct message as [|c message].
  - assert (E : ticks (@nil codeUnit) n = startTyping []).
    { unfold ticks. induction n as [|n IH]; [done |].
      by rewrite Nat.iter_succ, IH. }
    rewrite E. split; [by destruct n |]. split; [done |]. intros _.
    split; [done |]. unfold ticks in *. by rewrite Nat.iter_succ, E.
  - pose proof (ticks_state (c :: message) n ltac:(done)) as E.
    pose proof (ticks_state (c :: message) (S n) ltac:(done)) as E'.
    rewrite E. cbn [displayedText isTyping]. split; [done |]. split; [done |].
    intros Hgt. split; [by rewrite take_ge by lia |].
    rewrite E'. rewrite !Nat.min_r by lia. rewrite !take_ge by lia.
    destruct (Nat.leb_spec (S n) (length (c :: message))); [lia |].
    by destruct (Nat.leb_spec n (length (c :: message))); [lia |].
Qed.

End Typing.

Lemma typing_shows_a_growing_prefix_witness :
  (length [1; 2; 3] < 4)%nat /\
  displayedText (ticks [1; 2; 3] 4) = [1; 2; 3].
Proof.
  assert (H : (length [1; 2; 3] < 4)%nat) by (simpl; lia).
  split; [exact H |].
  exact (proj1 (proj2 (proj2 (typing_shows_a_growing_prefix [1; 2; 3] 4)) H)).
Defined.

End AdvisorMore.

(** * Properties of the planning page *)

Module PageMore.
Import Wizard WizardSpec WizardMore SmartPlanning.

Lemma step_sent_grows w e : (length (sent w) <= length (sent (step w e)))%nat.
Proof.
  assert (S : (length (sent w) <= length (sent (handleSubmit w)))%nat).
  { rewrite handleSubmit_sent. destruct (snd _); [| done].
    rewrite length_app. lia. }
  destruct e; cbn [step]; try done.
  - by rewrite handleNext_sent.
  - by rewrite handlePrevious_sent.
  - unfold handleKeyPress. destruct (String.eqb key "Enter"); [| done].
    destruct (currentStep w <? lastStep); [by rewrite handleNext_sent | done].
Qed.

Section Page.

Context {Analysis : Type}.

Lemma page_invariant (p : Page Analysis) :
  pageReachable p ->
  reachable (wizard p) /\
  (answered p <= length (sent (wizard p)))%nat /\
  (showReportModal p = true -> (0 < answered p)%nat) /\
  (is_Some (analysis p) -> (0 < answered p)%nat).
Proof.
  induction 1 as [| p e _ (Hr & Ha & Hm & Hs) Hen].
  - split; [constructor |]. split; [done |]. split; [done |].
    by intros [? ?].
  - destruct e as [e | o | | | |]; cbn [pageStep pageEnabled] in *.
    + cbn. split; [by constructor |]. split; [| done].
      pose proof (step_sent_grows (wizard p) e). lia.
    + apply Nat.ltb_lt in Hen. destruct o as [a |]; cbn.
      * split; [done |]. split; [lia |]. split; intros _; lia.
      * split; [done |]. split; [lia |]. split; intros ?; lia.
    + done.
    + done.
    + apply andb_true_iff in Hen as [_ Hen]. apply bool_decide_eq_true in Hen.
      cbn. split; [done |]. split; [done |]. split; [| done]. intros _. auto.
    + cbn. split; [done |]. split; [done |]. split; [done | done].
Qed.

(** X14. On the planning page the report is on display only after a request
    was posted and its answer has arrived: as long as no answer has come in,
    no analysis is held, the flag of the report is down and the report is
    not drawn.  The wizard inside the page only ever is in a state of a
    session. *)
Theorem report_needs_an_answer (p : Page Analysis) :
  pageReachable p ->
  reachable (wizard p)
  /\ (answered p <= length (sent (wizard p)))%nat
  /\ (answered p = 0%nat ->
      analysis p = None /\ showReportModal p = false /\ reportVisible p = false)
  /\ (reportVisible p = true -> sent (wizard p) <> []).
Proof.
  intros Hp. destruct (page_invariant p Hp) as (Hr & Ha & Hm & Hs).
  split; [done |]. split; [done |]. split.
  - intros H0.
    assert (N : analysis p = None).
    { destruct (analysis p) as [a|] eqn:E; [| done].
      assert ((0 < answered p)%nat) by (apply Hs; by eexists). lia. }
    assert (M : showReportModal p = false).
    { destruct (showReportModal p) eqn:E; [| done].
      assert ((0 < answered p)%nat) by by apply Hm. lia. }
    unfold reportVisible. by rewrite M.
  - intros V. unfold reportVisible in V. apply andb_true_iff in V as [M _].
    specialize (Hm M). intros E. rewrite E in Ha. cbn in Ha. lia.
Qed.

End Page.

Lemma report_needs_an_answer_witness :
  pageReachable
    (fold_left pageStep
       (map Form WizardView.scenarioSession ++ [Settled (Answer (Some tt))])
       initialPage) /\
  reportVisible
    (fold_left pageStep
       (map Form WizardView.scenarioSession ++ [Settled (Answer (Some tt))])
       initialPage) = true /\
  sent (wizard
    (fold_left pageStep
       (map Form WizardView.scenarioSession ++ [Settled (Answer (Some tt))])
       initialPage)) <> [].
Proof.
  assert (R : pageReachable
    (fold_left pageStep
       (map Form WizardView.scenarioSession ++ [Settled (Answer (Some tt))])
       initialPage)).
  { cbn [WizardView.scenarioSession map app fold_left].
    repeat (apply pageReachable_step; [| vm_compute; reflexivity]).
    apply pageReachable_initial. }
  assert (V : reportVisible
    (fold_left pageStep
       (map Form WizardView.scenarioSession ++ [Settled (Answer (Some tt))])
       initialPage) = true) by (vm_compute; reflexivity).
  split; [exact R |]. split; [exact V |].
  exact (proj2 (proj2 (proj2 (report_needs_an_answer _ R))) V).
Defined.

End PageMore.

(** * Properties of the report modal *)

Module ModalMore.
Import ReportModal.

(** An address contains the character of [@] exactly when [includes] finds
    it.  (An address is taken by its bytes in UTF-8, where the byte of [@]
    is part of no other character.) *)
Lemma includes_at s :
  includes s "@" = true <-> In "@"%char (list_ascii_of_string s).
Proof.
  unfold includes. induction s as [|c s IH]; cbn [list_ascii_of_string In].
  - split; [done | tauto].
  - cbn [String.index String.prefix].
    destruct (Ascii.ascii_dec "@" c) as [<- | Hne].
    + destruct s; split; auto.
    + destruct (String.index 0 "@" s) eqn:E.
      * split; [intros _; right; by apply IH | done].
      * split; [done |]. intros [-> | H]; [done |]. by apply IH in H.
Qed.

(** X15. [handleEmailReport] posts the e-mail request exactly when the
    address typed contains the character [@], with that address, and it
    alerts and posts nothing otherwise; nothing else about the address is
    looked at, and the test for an empty address never decides alone. *)
Theorem email_is_posted_iff_it_has_an_at (m : Modal) :
  (In "@"%char (list_ascii_of_string (email m)) ->
     emailRequests (handleEmailReport m) = emailRequests m ++ [email m] /\
     modalAlerts (handleEmailReport m) = modalAlerts m)
  /\ (~ In "@"%char (list_ascii_of_string (email m)) ->
       emailRequests (handleEmailReport m) = emailRequests m /\
       modalAlerts (handleEmailReport m) = S (modalAlerts m)).
Proof.
  unfold handleEmailReport. split; intros H.
  - assert (I : includes (email m) "@" = true) by by apply includes_at.
    assert (N : String.eqb (email m) "" = false).
    { apply String.eqb_neq. intros E. rewrite E in H. done. }
    by rewrite I, N.
  - assert (I : includes (email m) "@" = false).
    { apply not_true_iff_false. by rewrite includes_at. }
    rewrite I, orb_true_r. done.
Qed.

Lemma email_is_posted_iff_it_has_an_at_witness :
  emailRequests (handleEmailReport (setEmail "@" initialModal)) = ["@"] /\
  modalAlerts (handleEmailReport (setEmail "athlete" initialModal)) = 1%nat.
Proof.
  split.
  - refine (proj1 (proj1 (email_is_posted_iff_it_has_an_at
                            (setEmail "@" initialModal)) _)).
    simpl. left. reflexivity.
  - refine (proj2 (proj2 (email_is_posted_iff_it_has_an_at
                            (setEmail "athlete" initialModal)) _)).
    vm_compute. intuition discriminate.
Defined.

Lemma modal_invariant m :
  modalReachable m ->
  pdfRequests m = (pdfSettled m + if pdfGenerating m then 1 else 0)%nat /\
  (emailSent m = true -> (0 < resetTimers m)%nat) /\
  (emailSettled m <= length (emailRequests m))%nat.
Proof.
  induction 1 as [| m e _ (Hp & Ht & He) Hen].
  - repeat split; [done | done].
  - destruct e as [s | | ok | | | ok]; cbn [modalStep modalEnabled] in *.
    + done.
    + unfold handleEmailReport. destruct (_ || _); cbn; [done |].
      split; [done |]. split; [done |]. rewrite length_app. cbn. lia.
    + apply Nat.ltb_lt in Hen. destruct ok; cbn.
      * split; [done |]. split; [intros _; lia | lia].
      * split; [done |]. split; [done | lia].
    + cbn. split; [done |]. split; [done | done].
    + apply negb_true_iff in Hen. rewrite Hen in Hp. cbn.
      split; [lia |]. split; [done | done].
    + apply Nat.ltb_lt in Hen. cbn. split; [| done].
      destruct (pdfGenerating m); lia.
Qed.

(** X17. Whenever the sent badge of the e-mail button is up, a timer that
    takes it down again is pending, so the button does not stay disabled;
    and no more answers have been handled than e-mail requests were
    posted. *)
Theorem sent_badge_has_a_timer (m : Modal) :
  modalReachable m ->
  (emailSent m = true -> (0 < resetTimers m)%nat)
  /\ (emailSettled m <= length (emailRequests m))%nat.
Proof. intros H. by apply modal_invariant. Qed.

Lemma modalReachable_after_email :
  modalReachable
    (modalStep (modalStep (modalStep initialModal (TypeEmail "a@b.c"))
                  ClickEmailReport) (EmailSettled true)).
Proof.
  repeat (apply modalReachable_step; [| vm_compute; reflexivity]).
  constructor.
Qed.

Lemma sent_badge_has_a_timer_witness :
  modalReachable
    (modalStep (modalStep (modalStep initialModal (TypeEmail "a@b.c"))
                  ClickEmailReport) (EmailSettled true)) /\
  (0 < resetTimers
         (modalStep (modalStep (modalStep initialModal (TypeEmail "a@b.c"))
                       ClickEmailReport) (EmailSettled true)))%nat.
Proof.
  split; [exact modalReachable_after_email |].
  apply (proj1 (sent_badge_has_a_timer _ modalReachable_after_email)).
  reflexivity.
Defined.

End ModalMore.

(** * The report across its mounts *)

Module MountsMore.
Import ReportModal ReportMounts.

Lemma modalStep_ownPdf m e :
  modalEnabled m e = true -> ownPdfInOrder m -> ownPdfInOrder (modalStep m e).
Proof.
  unfold ownPdfInOrder. intros Hen H.
  destruct e as [s | | ok | | | ok]; cbn [modalStep modalEnabled] in *.
  - done.
  - unfold handleEmailReport. by destruct (_ || _).
  - by destruct ok.
  - done.
  - apply negb_true_iff in Hen. rewrite Hen in H. cbn. lia.
  - apply Nat.ltb_lt in Hen. cbn. destruct (pdfGenerating m); lia.
Qed.

Lemma reachable_ownPdf r :
  reportReachable r -> forall m, mount r = Some m -> ownPdfInOrder m.
Proof.
  induction 1 as [| r e _ IH Hen]; [done |].
  intros m' Hm. destruct e; cbn [reportStep reportEnabled] in *.
  - injection Hm as <-. by unfold ownPdfInOrder.
  - by destruct (mount r).
  - destruct (mount r) as [m|] eqn:E; [| done]. cbn in Hm.
    injection Hm as <-. apply modalStep_ownPdf; [done | by apply IH].
  - by apply IH.
  - by apply IH.
Qed.

Lemma pending_from_earlier_mounts n :
  exists r, reportReachable r /\ mount r = None /\ earlierPdf r = n.
Proof.
  induction n as [|n (r & Hr & Hm & He)].
  - exists initialReport. split; [constructor | done].
  - exists (reportStep (reportStep (reportStep r ReportOpened)
                          (InMount ClickDownloadPDF)) ReportClosed).
    split.
    + apply reportReachable_step; [| done].
      apply reportReachable_step; [| done].
      apply reportReachable_step; [done |].
      cbn [reportEnabled]. by rewrite Hm.
    + cbn. split; [done |]. unfold openPdfOf. cbn. lia.
Qed.

(** X16. Each mount of the report has at most one request for the PDF of
    its own under way: its requests posted exceed its requests settled by
    one exactly while its [pdfGenerating] is up, which disables its button.
    Over the life of the page there is no such bound: closing and opening
    the report gives a fresh mount with the button enabled while the
    requests of the mounts before it are still open, and any number of
    them can be. *)
Theorem one_pdf_request_per_mount :
  (forall r m, reportReachable r -> mount r = Some m ->
     openPdfOf m = (if pdfGenerating m then 1 else 0)%nat /\
     pdfRequests m = (pdfSettled m + openPdfOf m)%nat)
  /\ (forall n, exists r,
        reportReachable r /\ mount r = Some initialModal /\
        modalEnabled initialModal ClickDownloadPDF = true /\
        openPdf r = n /\
        openPdf (reportStep r (InMount ClickDownloadPDF)) = S n).
Proof.
  split.
  - intros r m Hr Hm. pose proof (reachable_ownPdf r Hr m Hm) as H.
    unfold ownPdfInOrder in H. unfold openPdfOf. destruct (pdfGenerating m); lia.
  - intros n. destruct (pending_from_earlier_mounts n) as (r & Hr & Hm & He).
    exists (reportStep r ReportOpened). split.
    + apply reportReachable_step; [done |]. cbn [reportEnabled]. by rewrite Hm.
    + cbn. split; [done |]. split; [done |].
      unfold openPdf, openPdfOf. cbn. rewrite He. split; lia.
Qed.

Lemma one_pdf_request_per_mount_witness :
  reportReachable (reportStep (reportStep initialReport ReportOpened)
                     (InMount ClickDownloadPDF)) /\
  openPdfOf (modalStep initialModal ClickDownloadPDF) = 1%nat.
Proof.
  assert (R : reportReachable (reportStep (reportStep initialReport ReportOpened)
                                 (InMount ClickDownloadPDF))).
  { apply reportReachable_step; [| reflexivity].
    apply reportReachable_step; [constructor | reflexivity]. }
  split; [exact R |].
  exact (proj1 (proj1 one_pdf_request_per_mount _ _ R eq_refl)).
Defined.

End MountsMore.
